(** * PCCArena: the experiment orchestration core, embedded in Rocq

    The development follows the Python sources

    - [utils/processing.py]    ([timer], [execute_cmd], [parallel]),
    - [algs_wrapper/base.py]   ([Base]: the [rate] property, [run_dataset],
                               [run], [__set_filepath]),
    - [algs_wrapper/GPCC.py]   ([encode], [decode]),
    - [algs_wrapper/PCGCv1.py] (the overriding [run]).

    Python code that raises is modelled with an explicit [result]; code that
    touches the file system, the clock, the log or a subprocess runs in a
    monad [M] that threads an environment and collects the observable
    events of a call in order. *)

From Stdlib Require Import Ascii String DecimalString QArith Lqa.
From stdpp Require Import gmap strings list fin_maps sorting.

Local Open Scope string_scope.
Local Open Scope list_scope.

(** ** Python outcomes *)

Module Py.

(** The exception classes the modelled code can raise or let through. *)
Inductive exn : Type :=
| AttributeError
| AssertionError
| ValueError
| TypeError
| KeyError
| FileNotFoundError
| FileExistsError
| NotADirectoryError
| IsADirectoryError
| UnicodeDecodeError.

Inductive result (A : Type) : Type :=
| Ok (a : A)
| Raise (e : exn).
Global Arguments Ok {A} a.
Global Arguments Raise {A} e.

Definition is_ok {A} (r : result A) : bool :=
  match r with Ok _ => true | Raise _ => false end.

(** The values a YAML configuration or an instance attribute can hold. *)
Inductive value : Type :=
| VNone
| VBool (b : bool)
| VInt (z : Z)
| VFloat (repr : string)
| VStr (s : string)
| VDict (items : list (string * value)).

Fixpoint assoc (k : string) (items : list (string * value)) : option value :=
  match items with
  | [] => None
  | (k', v) :: rest => if String.eqb k k' then Some v else assoc k rest
  end.

(** [d[k]] *)
Definition subscript (d : value) (k : string) : result value :=
  match d with
  | VDict items =>
      match assoc k items with
      | Some v => Ok v
      | None => Raise KeyError
      end
  | _ => Raise TypeError
  end.

(** A value used where only a [str] will do. *)
Definition as_str (v : value) : result string :=
  match v with
  | VStr s => Ok s
  | _ => Raise TypeError
  end.

(** [repr(v)] when [quote] is set, [str(v)] otherwise; the two differ on
    strings.  A float carries the text Python prints for it; escapes
    inside a quoted string are left plain. *)
Fixpoint py_fmt (quote : bool) (v : value) : string :=
  match v with
  | VNone => "None"
  | VBool true => "True"
  | VBool false => "False"
  | VInt z => NilZero.string_of_int (Z.to_int z)
  | VFloat r => r
  | VStr s => if quote then "'" +:+ s +:+ "'" else s
  | VDict items =>
      "{" +:+
      (fix entries (l : list (string * value)) : string :=
         match l with
         | [] => ""
         | (k, w) :: rest =>
             "'" +:+ k +:+ "': " +:+ py_fmt true w +:+
             match rest with
             | [] => ""
             | _ :: _ => ", " +:+ entries rest
             end
         end) items
      +:+ "}"
  end.

(** [str(v)], also what an f-string prints. *)
Definition py_str (v : value) : string := py_fmt false v.

(** [v == 1] *)
Definition eq_one (v : value) : bool :=
  match v with
  | VInt 1 | VBool true => true
  | VFloat r => String.eqb r "1.0"
  | _ => false
  end.

End Py.
Export Py.

(** ** The world a call runs in *)

(** Files are addressed by the parts of their resolved absolute path, the
    root ["/"] first, as [pathlib] splits them. *)
Inductive node : Type :=
| Dir
| File (content : string).

Inductive level : Type := INFO | WARNING | ERROR.

(** What [ViewIndependentMetrics.evaluate] is called with ([Base.run],
    lines 147-155). *)
Record eval_args : Type := EvalArgs {
  ea_ref : list string;
  ea_target : list string;
  ea_color : value;
  ea_resolution : value;
  ea_enc_time : Q;
  ea_dec_time : Q;
  ea_bin_files : list (list string)
}.

(** Observable events, in the order the code produces them, in three
    layers: what the command executor and the loggers do, what the
    per-file pipeline does, what the dispatcher does.  A codec can only
    produce events of the first layer, a job only of the first two. *)
Inductive io_event : Type :=
| IoLog (lvl : level) (msg : string)
| IoPrint (text : string)
| IoSpawn (cmd : list string).

Inductive run_event : Type :=
| RunIO (io : io_event)
| RunEncode (src dst : string)
| RunDecode (src dst : string)
| RunEvaluate (args : eval_args)
| RunWrite (file : list string) (content : string).

Inductive pool_event (I E : Type) : Type :=
| PoolLog (lvl : level) (msg : string)
| PoolSpawn (processes : option nat)
| PoolTask (item : I)
| PoolJob (e : E).
Arguments PoolLog {I E} lvl msg.
Arguments PoolSpawn {I E} processes.
Arguments PoolTask {I E} item.
Arguments PoolJob {I E} e.

Record Env : Type := MkEnv {
  fs : gmap (list string) node;
  cwd : list string;
  now : Q
}.

Record out (E A : Type) : Type := Out {
  res : result A;
  env_of : Env;
  trace : list E
}.
Arguments Out {E A} res env_of trace.
Arguments res {E A} o.
Arguments env_of {E A} o.
Arguments trace {E A} o.

(** State, error and event log in one monad. *)
Definition M (E A : Type) : Type := Env -> out E A.

Definition ret {E A} (a : A) : M E A := fun e => Out (Ok a) e [].

Definition raise {E A} (x : exn) : M E A := fun e => Out (Raise x) e [].

Definition bind {E A B} (m : M E A) (f : A -> M E B) : M E B :=
  fun e =>
    let o := m e in
    match res o with
    | Ok a => let o' := f a (env_of o) in
              Out (res o') (env_of o') (trace o ++ trace o')
    | Raise x => Out (Raise x) (env_of o) (trace o)
    end.

Definition emit {E} (ev : E) : M E unit := fun e => Out (Ok tt) e [ev].

Definition get_env {E} : M E Env := fun e => Out (Ok e) e [].

Definition put_env {E} (e' : Env) : M E unit := fun _ => Out (Ok tt) e' [].

(** A pure fallible computation, run inside [M]. *)
Definition lift {E A} (r : result A) : M E A := fun e => Out r e [].

(** An external collaborator: it may change the environment and fail, but
    it writes no event. *)
Definition extern {E A} (f : Env -> result A * Env) : M E A :=
  fun e => let '(r, e') := f e in Out r e' [].

(** A computation of an inner layer, seen from an outer one. *)
Definition relabel {E F A} (f : E -> F) (m : M E A) : M F A :=
  fun e => let o := m e in Out (res o) (env_of o) (List.map f (trace o)).

#[global] Instance M_ret {E} : MRet (M E) := @ret E.
#[global] Instance M_bind {E} : MBind (M E) := fun A B f m => bind m f.

(** [assert c] *)
Definition py_assert {E} (c : bool) : M E unit :=
  if c then ret tt else raise AssertionError.

(** [try: body except ...:] with one handler per exception class; [None]
    lets the exception through. *)
Definition try_with {E A} (body : M E A) (handler : exn -> option (M E A))
    : M E A :=
  fun e =>
    let o := body e in
    match res o with
    | Ok a => o
    | Raise x =>
        match handler x with
        | Some h =>
            let o' := h (env_of o) in
            Out (res o') (env_of o') (trace o ++ trace o')
        | None => o
        end
    end.

(** ** [pathlib.PurePosixPath] *)

Module Path.

(** A path is the list of its [parts]; an absolute path starts with its
    root. *)
Definition t : Type := list string.

Definition slash : ascii := "/"%char.
Definition dot : ascii := "."%char.

(** [s.split('/')] *)
Fixpoint split_slash (s : string) : list string :=
  match s with
  | EmptyString => [EmptyString]
  | String c s' =>
      if Ascii.eqb c slash then EmptyString :: split_slash s'
      else match split_slash s' with
           | [] => [String c EmptyString]
           | w :: ws => String c w :: ws
           end
  end.

(** The root of a path string: two leading slashes, and only two, are
    kept apart by POSIX. *)
Definition root_of (s : string) : option string :=
  match s with
  | String a (String b (String c _)) =>
      if Ascii.eqb a slash then
        if Ascii.eqb b slash then
          if Ascii.eqb c slash then Some "/" else Some "//"
        else Some "/"
      else None
  | String a (String b EmptyString) =>
      if Ascii.eqb a slash then
        if Ascii.eqb b slash then Some "//" else Some "/"
      else None
  | String a EmptyString => if Ascii.eqb a slash then Some "/" else None
  | EmptyString => None
  end.

Definition keep_part (w : string) : bool :=
  negb (String.eqb w "" || String.eqb w ".").

(** [Path(s)] *)
Definition of_string (s : string) : t :=
  match root_of s with
  | Some r => r :: List.filter keep_part (split_slash s)
  | None => List.filter keep_part (split_slash s)
  end.

Definition is_root (w : string) : bool :=
  String.eqb w "/" || String.eqb w "//".

Definition is_absolute (p : t) : bool :=
  match p with
  | r :: _ => is_root r
  | [] => false
  end.

Fixpoint join_parts (ws : list string) : string :=
  match ws with
  | [] => ""
  | [w] => w
  | w :: ws' => w +:+ "/" +:+ join_parts ws'
  end.

(** [str(p)] *)
Definition to_string (p : t) : string :=
  match p with
  | [] => "."
  | r :: ws => if is_root r then r +:+ join_parts ws else join_parts p
  end.

(** [p.joinpath(q)]: an absolute [q] replaces [p]. *)
Definition joinpath (p q : t) : t :=
  if is_absolute q then q else p ++ q.

(** [p.name] *)
Definition name (p : t) : string :=
  match p with
  | r :: ws => if is_root r then List.last ws "" else List.last p ""
  | [] => ""
  end.

(** [p.parent] *)
Definition parent (p : t) : t :=
  match p with
  | r :: ws => if is_root r then r :: removelast ws else removelast p
  | [] => []
  end.

(** Splits a name at its last dot: [name[:i]] and [name[i:]] for
    [i = name.rfind('.')]. *)
Fixpoint split_last_dot (s : string) : option (string * string) :=
  match s with
  | EmptyString => None
  | String c s' =>
      match split_last_dot s' with
      | Some (a, b) => Some (String c a, b)
      | None => if Ascii.eqb c dot then Some ("", s) else None
      end
  end.

(** [0 < i < len(name) - 1] *)
Definition proper_split (ab : string * string) : bool :=
  negb (String.eqb (fst ab) "") && (1 <? String.length (snd ab))%nat.

(** [p.suffix] *)
Definition suffix (p : t) : string :=
  match split_last_dot (name p) with
  | Some ab => if proper_split ab then snd ab else ""
  | None => ""
  end.

(** [p.stem] *)
Definition stem (p : t) : string :=
  match split_last_dot (name p) with
  | Some ab => if proper_split ab then fst ab else name p
  | None => name p
  end.

Fixpoint has_slash (s : string) : bool :=
  match s with
  | EmptyString => false
  | String c s' => Ascii.eqb c slash || has_slash s'
  end.

Definition starts_with_dot (s : string) : bool :=
  match s with
  | String c _ => Ascii.eqb c dot
  | EmptyString => false
  end.

(** [p.with_suffix(suffix)] *)
Definition with_suffix (p : t) (sfx : string) : result t :=
  if has_slash sfx then Raise ValueError
  else if (negb (String.eqb sfx "") && negb (starts_with_dot sfx))
          || String.eqb sfx "." then Raise ValueError
  else if String.eqb (name p) "" then Raise ValueError
  else
    let new_name :=
      match split_last_dot (name p) with
      | Some ab => if proper_split ab then fst ab +:+ sfx else name p +:+ sfx
      | None => name p +:+ sfx
      end in
    Ok (removelast p ++ [new_name]).

(** The absolute, dot-dot-free parts the operating system reaches from
    the working directory [wd] (links are not modelled). *)
Definition step (acc : t) (w : string) : t :=
  if String.eqb w ".." then
    match acc with
    | [_] | [] => acc
    | _ => removelast acc
    end
  else acc ++ [w].

Definition resolve (wd : t) (p : t) : t :=
  match p with
  | r :: ws => if is_root r then fold_left step ws ["/"] else fold_left step p wd
  | [] => wd
  end.

End Path.

(** ** The file system, the clock *)

Definition path_eqb (p q : Path.t) : bool := bool_decide (p = q).

(** [p.is_dir()] *)
Definition is_dir {E} (p : Path.t) : M E bool :=
  e ← get_env;
  ret (match fs e !! Path.resolve (cwd e) p with
       | Some Dir => true
       | _ => false
       end).

Definition set_fs (e : Env) (m : gmap (list string) node) : Env :=
  MkEnv m (cwd e) (now e).

(** [os.mkdir(p)] *)
Definition os_mkdir {E} (p : Path.t) : M E unit :=
  e ← get_env;
  let q := Path.resolve (cwd e) p in
  match fs e !! q with
  | Some _ => raise FileExistsError
  | None =>
      match fs e !! removelast q with
      | Some Dir => put_env (set_fs e (<[q := Dir]> (fs e)))
      | Some (File _) => raise NotADirectoryError
      | None => raise FileNotFoundError
      end
  end.

(** [Path.mkdir(parents, exist_ok)], as [pathlib] writes it: try
    [os.mkdir], on a missing parent create the parent and retry, on any
    other [OSError] give up unless [exist_ok] and the path is a
    directory.  The recursion goes up one parent per call, so the number
    of parts bounds it. *)
Fixpoint mkdir_fuel {E} (fuel : nat) (p : Path.t) (parents exist_ok : bool)
    : M E unit :=
  try_with (os_mkdir p) (fun x =>
    match x with
    | FileNotFoundError =>
        Some (if negb parents || path_eqb (Path.parent p) p then raise x
              else match fuel with
                   | O => raise x
                   | S fuel' =>
                       _ ← mkdir_fuel fuel' (Path.parent p) true true;
                       mkdir_fuel fuel' p false exist_ok
                   end)
    | FileExistsError | NotADirectoryError | IsADirectoryError =>
        Some (d ← is_dir p;
              if negb exist_ok || negb d then raise x else ret tt)
    | _ => None
    end).

Definition mkdir {E} (p : Path.t) (parents exist_ok : bool) : M E unit :=
  mkdir_fuel (S (length p)) p parents exist_ok.

(** [with open(p, 'w') as f: f.write(content)] *)
Definition open_write (p : Path.t) (content : string) : M run_event unit :=
  e ← get_env;
  let q := Path.resolve (cwd e) p in
  match fs e !! q with
  | Some Dir => raise IsADirectoryError
  | _ =>
      match fs e !! removelast q with
      | Some Dir =>
          _ ← put_env (set_fs e (<[q := File content]> (fs e)));
          emit (RunWrite q content)
      | Some (File _) => raise NotADirectoryError
      | None => raise FileNotFoundError
      end
  end.

(** [time.time()] *)
Definition time_time {E} : M E Q := e ← get_env; ret (now e).

(** [utils.processing.timer] (lines 12-29): the call is made once, its
    value dropped, an exception it raises is not caught. *)
Definition timer {E A} (func : M E A) : M E Q :=
  start_time ← time_time;
  _ ← func;
  t ← time_time;
  let end_time := (t - start_time)%Q in
  ret end_time.

(** ** Globbing *)

(** A glob pattern against one file name: [*] stands for any run of
    characters, [?] for any one. *)
Fixpoint glob_match (pat name : string) : bool :=
  match pat with
  | EmptyString => String.eqb name ""
  | String c pat' =>
      if Ascii.eqb c "*"%char then
        (fix any (n : string) : bool :=
           glob_match pat' n ||
           match n with
           | EmptyString => false
           | String _ n' => any n'
           end) name
      else
        match name with
        | EmptyString => false
        | String d name' =>
            (Ascii.eqb c "?"%char || Ascii.eqb c d) && glob_match pat' name'
        end
  end.

Fixpoint strip_prefix (d k : list string) : option (list string) :=
  match d, k with
  | [], _ => Some k
  | x :: d', y :: k' => if String.eqb x y then strip_prefix d' k' else None
  | _ :: _, [] => None
  end.

(** The name of [k] when [k] is an entry of the directory [d]. *)
Definition child_name (d k : list string) : option string :=
  match strip_prefix d k with
  | Some [w] => Some w
  | _ => None
  end.

(** The entries of directory [src_dir] whose name matches [pattern], as
    the file system [e] has them. *)
Definition glob_list (e : Env) (src_dir : Path.t) (pattern : string)
    (fullpath : bool) : list Path.t :=
  let d := Path.resolve (cwd e) src_dir in
  let names :=
    omap (fun kv => match child_name d (fst kv) with
                    | Some w => if glob_match pattern w then Some w else None
                    | None => None
                    end) (map_to_list (fs e)) in
  List.map (fun w => if fullpath then src_dir ++ [w] else [w]) names.

(** Modelled from the spec: [utils.file_io.glob_file] is imported by
    [base.py] but its file is not among the sources.  The spec has the
    pipeline collect the artifact set by a "stem-prefix glob under the
    artifact's parent directory": the entries of [src_dir] whose name
    matches [pattern], as full paths when [fullpath] is set and relative
    to [src_dir] otherwise. *)
Definition glob_file {E} (src_dir : Path.t) (pattern : string)
    (fullpath : bool) : M E (list Path.t) :=
  e ← get_env;
  ret (glob_list e src_dir pattern fullpath).

(** ** [re.search('^r[1-9]+', s, re.MULTILINE)] *)

Module Re.

(** [[1-9]] *)
Definition is_rate_digit (c : ascii) : bool :=
  (49 <=? nat_of_ascii c)%nat && (nat_of_ascii c <=? 57)%nat.

(** The longest run of [[1-9]] at the head of [s]. *)
Fixpoint take_digits (s : string) : string :=
  match s with
  | String c s' => if is_rate_digit c then String c (take_digits s') else ""
  | EmptyString => ""
  end.

(** [r[1-9]+] matched at the head of [s]: the [+] is greedy and nothing
    follows it in the pattern, so the match is the longest one. *)
Definition match_here (s : string) : option string :=
  match s with
  | String c s' =>
      if Ascii.eqb c "r"%char then
        match take_digits s' with
        | EmptyString => None
        | ds => Some (String c ds)
        end
      else None
  | EmptyString => None
  end.

Definition newline : ascii := ascii_of_nat 10.

(** The scan of [re.search]: leftmost position first.  Under
    [re.MULTILINE] the anchor [^] holds at the start of the string and
    right after every newline. *)
Fixpoint search_from (line_start : bool) (s : string) : option string :=
  match (if line_start then match_here s else None) with
  | Some m => Some m
  | None =>
      match s with
      | EmptyString => None
      | String c s' => search_from (Ascii.eqb c newline) s'
      end
  end.

Definition search (s : string) : option string := search_from true s.

End Re.

(** ** Classes and instances *)

Inductive cls : Type := Base | GPCC | PCGCv1.

#[global] Instance cls_eq_dec : EqDecision cls.
Proof. solve_decision. Defined.

Definition cls_name (c : cls) : string :=
  match c with
  | Base => "Base"
  | GPCC => "GPCC"
  | PCGCv1 => "PCGCv1"
  end.

(** The method resolution order: both codecs derive from [Base] alone. *)
Definition mro (c : cls) : list cls :=
  match c with
  | Base => [Base]
  | GPCC => [GPCC; Base]
  | PCGCv1 => [PCGCv1; Base]
  end.

(** The names each class body binds, as the source spells them. *)
Definition class_body (c : cls) : list string :=
  match c with
  | Base => ["__init__"; "encode"; "decode"; "rate"; "run_dataset"; "run";
             "__set_filepath"]
  | GPCC => ["__init__"; "encode"; "decode"]
  | PCGCv1 => ["__init__"; "make_encode_cmd"; "make_decode_cmd"; "run"]
  end.

Fixpoint ends_with_dunder (s : string) : bool :=
  match s with
  | String a (String b EmptyString) => Ascii.eqb a "_"%char && Ascii.eqb b "_"%char
  | String _ s' => ends_with_dunder s'
  | EmptyString => false
  end.

Definition starts_with_dunder (s : string) : bool :=
  match s with
  | String a (String b _) => Ascii.eqb a "_"%char && Ascii.eqb b "_"%char
  | _ => false
  end.

Fixpoint strip_underscores (s : string) : string :=
  match s with
  | String a s' => if Ascii.eqb a "_"%char then strip_underscores s' else s
  | EmptyString => ""
  end.

(** Private name mangling: inside the body of class [cn] an identifier
    with two leading underscores that does not end in two underscores
    is read as [_cn__identifier]. *)
Definition mangle (cn ident : string) : string :=
  if starts_with_dunder ident && negb (ends_with_dunder ident)
  then "_" +:+ strip_underscores cn +:+ ident
  else ident.

(** The attribute names stored in the class object. *)
Definition class_dict (c : cls) : list string :=
  List.map (mangle (cls_name c)) (class_body c).

(** The only descriptor with a setter in these classes. *)
Definition is_property (c : cls) (attr : string) : bool :=
  match c with
  | Base => String.eqb attr "rate"
  | _ => false
  end.

Definition in_names (attr : string) (names : list string) : bool :=
  existsb (String.eqb attr) names.

(** The first class of the resolution order that binds [attr]. *)
Definition find_owner (c : cls) (attr : string) : option cls :=
  List.find (fun k => in_names attr (class_dict k)) (mro c).

Record object : Type := Object {
  ob_class : cls;
  ob_dict : gmap string value
}.

Inductive attribute : Type :=
| InstAttr (v : value)
| ClassAttr (owner : cls) (attr : string).

(** [getattr(o, attr)]: a property of the class first, then the instance
    dictionary, then the class; [None] is Python's [AttributeError]. *)
Definition lookup_attr (o : object) (attr : string) : option attribute :=
  match find_owner (ob_class o) attr with
  | Some k =>
      if is_property k attr then Some (ClassAttr k attr)
      else match ob_dict o !! attr with
           | Some v => Some (InstAttr v)
           | None => Some (ClassAttr k attr)
           end
  | None => InstAttr <$> ob_dict o !! attr
  end.

Definition getattr (o : object) (attr : string) : result attribute :=
  match lookup_attr o attr with
  | Some a => Ok a
  | None => Raise AttributeError
  end.

(** Reading an attribute that the code uses as data. *)
Definition get_data (o : object) (attr : string) : result value :=
  match getattr o attr with
  | Ok (InstAttr v) => Ok v
  | Ok (ClassAttr _ _) => Raise TypeError
  | Raise x => Raise x
  end.

(** [o.attr = v] for a plain attribute. *)
Definition setattr (o : object) (attr : string) (v : value) : object :=
  Object (ob_class o) (<[attr := v]> (ob_dict o)).

(** ** [utils/processing.py] *)

(** [bytes.decode('utf-8')]: strings are kept as their UTF-8 bytes, so
    decoding is the identity on well-formed input and an error
    otherwise. *)
Module Utf8.

Definition in_range (lo hi : nat) (c : ascii) : bool :=
  (lo <=? nat_of_ascii c)%nat && (nat_of_ascii c <=? hi)%nat.

Definition cont : ascii -> bool := in_range 128 191.

(** Well-formed byte sequences, after table 3-7 of the Unicode
    standard. *)
Fixpoint valid (s : string) : bool :=
  match s with
  | EmptyString => true
  | String a r1 =>
      if in_range 0 127 a then valid r1
      else
        match r1 with
        | EmptyString => false
        | String b r2 =>
            if in_range 194 223 a then cont b && valid r2
            else
              match r2 with
              | EmptyString => false
              | String c r3 =>
                  if in_range 224 239 a then
                    (if in_range 224 224 a then in_range 160 191 b
                     else if in_range 237 237 a then in_range 128 159 b
                     else cont b)
                    && cont c && valid r3
                  else
                    match r3 with
                    | EmptyString => false
                    | String d r4 =>
                        in_range 240 244 a
                        && (if in_range 240 240 a then in_range 144 191 b
                            else if in_range 244 244 a then in_range 128 143 b
                            else cont b)
                        && cont c && cont d && valid r4
                    end
              end
        end
  end.

Definition decode (bytes : string) : result string :=
  if valid bytes then Ok bytes else Raise UnicodeDecodeError.

End Utf8.

(** [subprocess.CompletedProcess] with captured output. *)
Record completed : Type := Completed {
  returncode : Z;
  stdout : string;
  stderr : string
}.

(** [try: body except ...: handler else: orelse] *)
Definition try_else {E A B} (body : M E A) (handler : exn -> option (M E B))
    (orelse : A -> M E B) : M E B :=
  fun e =>
    let o := body e in
    match res o with
    | Ok a =>
        let o' := orelse a (env_of o) in
        Out (res o') (env_of o') (trace o ++ trace o')
    | Raise x =>
        match handler x with
        | Some h =>
            let o' := h (env_of o) in
            Out (res o') (env_of o') (trace o ++ trace o')
        | None => Out (Raise x) (env_of o) (trace o)
        end
    end.

Definition on_AssertionError {E A} (h : M E A) (x : exn) : option (M E A) :=
  match x with
  | AssertionError => Some h
  | _ => None
  end.

Definition nl : string := String (ascii_of_nat 10) EmptyString.

(** [''.join(str(s)+' ' for s in cmd)] *)
Definition command_line (cmd : list string) : string :=
  String.concat "" (List.map (fun s => s +:+ " ") cmd).

Section Executor.

(** [subprocess.run(cmd, capture_output=True, shell=shell, cwd=cwd)]:
    the operating system decides what the command does, and whether it
    can be started at all. *)
Variable sp_run :
  list string -> bool -> option string -> Env -> result completed * Env.

(** [execute_cmd] (lines 31-60).  The process is spawned before the
    [try]; the [try] guards the assertion alone. *)
Definition execute_cmd (cmd : list string) (shell : bool)
    (wd : option string) : M io_event bool :=
  _ ← emit (IoSpawn cmd);
  r ← extern (sp_run cmd shell wd);
  try_else
    (py_assert (returncode r =? 0)%Z)
    (on_AssertionError (
       _ ← emit (IoLog INFO ("The stdout and stderr of executed command: "
                             +:+ command_line cmd));
       so ← lift (Utf8.decode (stdout r));
       _ ← emit (IoPrint (nl +:+ " " +:+ so));
       se ← lift (Utf8.decode (stderr r));
       _ ← emit (IoPrint (nl +:+ " " +:+ se));
       ret false))
    (fun _ => ret true).

End Executor.

(** The arguments of [GPUtil.getAvailable]. *)
Record gpu_policy : Type := GpuPolicy {
  order : string;
  limit : nat;
  maxLoad : Q;
  maxMemory : Q;
  includeNan : bool;
  excludeID : list nat;
  excludeUUID : list string
}.

(** The policy [parallel] asks with (lines 83-91). *)
Definition fixed_policy : gpu_policy :=
  GpuPolicy "first" 8 (1 # 2) (1 # 5) false [] [].

(** What the process pool decides and the code does not: the order in
    which the results of the submitted tasks reach the parent, and how
    many more tasks run to their end between a failed result reaching
    the parent and the pool being torn down. *)
Record schedule (I : Type) : Type := Schedule {
  completion : list I -> list I;
  overrun : nat
}.
Arguments Schedule {I} completion overrun.
Arguments completion {I} s l.
Arguments overrun {I} s.

Definition is_True (v : value) : bool :=
  match v with
  | VBool true => true
  | _ => false
  end.

Section Dispatcher.

Context {I E : Type}.

(** [GPUtil.getAvailable]: a third-party probe of the devices. *)
Variable getAvailable : gpu_policy -> list nat.

Local Abbreviation PM := (M (pool_event I E)).

(** A task whose result nobody collects: its effects stay, its outcome
    is dropped. *)
Definition uncollected (m : PM unit) : PM unit :=
  fun e => let o := m e in Out (Ok tt) (env_of o) (trace o).

(** Tasks still running when the pool is terminated: [n] of them reach
    their end, the others are killed (what a killed task did before is
    not modelled). *)
Fixpoint drain (func : I -> M E unit) (n : nat) (items : list I) : PM unit :=
  match n, items with
  | S n', x :: rest =>
      _ ← emit (PoolTask x);
      _ ← uncollected (relabel PoolJob (func x));
      drain func n' rest
  | _, _ => ret tt
  end.

(** [list(pool.imap_unordered(func, items))] inside [with Pool(...)]:
    the parent takes the results as they complete; the first failed one
    is re-raised by the iterator, the [with] block is left and the pool
    terminated. *)
Fixpoint imap_unordered (func : I -> M E unit) (slack : nat)
    (items : list I) : PM unit :=
  match items with
  | [] => ret tt
  | x :: rest =>
      _ ← emit (PoolTask x);
      _ ← try_with (relabel PoolJob (func x))
            (fun err => Some (_ ← drain func slack rest; raise err));
      imap_unordered func slack rest
  end.

(** [parallel] (lines 62-104). *)
Definition parallel (sched : schedule I) (func : I -> M E unit)
    (filelist : list I) (use_gpu : value) : PM unit :=
  process ←
    (if is_True use_gpu then
       let deviceIDs := getAvailable fixed_policy in
       let process := length deviceIDs in
       if (process <=? 0)%nat then
         _ ← emit (PoolLog ERROR
               ("No available GPU. Check with the threshold parameters "
                +:+ "of ``GPUtil.getAvailable()``"));
         raise ValueError
       else ret (Some process)
     else ret None);
  _ ← emit (PoolSpawn process);
  imap_unordered func (overrun sched) (completion sched filelist).

End Dispatcher.

(** ** [algs_wrapper/base.py] *)

(** [self.rate], the getter (lines 27-38): [return self._rate]. *)
Definition rate_get (self : object) : result value := get_data self "_rate".

(** [self.rate = rate], the setter (lines 40-47).  The warning branch has
    no [return]: [m.group()] is evaluated on [None] as well. *)
Definition rate_set (self : object) (rate : string) : M io_event object :=
  let m := Re.search rate in
  _ ← (if m is None
       then emit (IoLog WARNING
                    "Invalid rate control parameters. Use 'r1', 'r2', etc.")
       else ret tt);
  g ← lift (match m with
            | Some t => Ok t
            | None => Raise AttributeError
            end);
  ret (setattr self "_rate" (VStr g)).

(** An assignment statement in a caller that goes on after an error: the
    object is the updated one when the setter returned, the old one when
    it raised. *)
Definition assign_rate (self : object) (rate : string) (e : Env) : object :=
  match res (rate_set self rate e) with
  | Ok self' => self'
  | Raise _ => self
  end.

(** The methods a concrete codec supplies. *)
Class Codec : Type := {
  encode : object -> string -> string -> M io_event unit;
  decode : object -> string -> string -> M io_event unit
}.

(** The five paths of a job: input, input with normals, compressed
    artifact, reconstructed output, evaluation log. *)
Record job_paths : Type := JobPaths {
  in_pcfile : Path.t;
  nor_pcfile : Path.t;
  bin_file : Path.t;
  out_pcfile : Path.t;
  evl_log : Path.t
}.

(** [Base.__set_filepath] (lines 159-200). *)
Definition set_filepath {E} (self : object)
    (pcfile src_dir nor_dir exp_dir : Path.t) : M E job_paths :=
  let in_pcfile := Path.joinpath src_dir pcfile in
  let nor_pcfile := Path.joinpath nor_dir pcfile in
  cfg ← lift (get_data self "_algs_cfg");
  sfx ← lift (subscript cfg "bin_suffix");
  sfx ← lift (as_str sfx);
  bin_file ← lift (Path.with_suffix
                     (Path.joinpath (Path.joinpath exp_dir ["bin"]) pcfile)
                     sfx);
  let out_pcfile := Path.joinpath (Path.joinpath exp_dir ["dec"]) pcfile in
  evl_log ← lift (Path.with_suffix
                    (Path.joinpath (Path.joinpath exp_dir ["evl"]) pcfile)
                    ".log");
  _ ← mkdir (Path.parent bin_file) true true;
  _ ← mkdir (Path.parent out_pcfile) true true;
  _ ← mkdir (Path.parent evl_log) true true;
  ret (JobPaths in_pcfile nor_pcfile bin_file out_pcfile evl_log).

(** A call [self.<attr>(...)] of a method whose body is [body] when the
    lookup ends in class [owner]. *)
Definition call_method {E A} (self : object) (attr : string) (owner : cls)
    (body : M E A) : M E A :=
  a ← lift (getattr self attr);
  match a with
  | ClassAttr k _ => if bool_decide (k = owner) then body else raise TypeError
  | InstAttr _ => raise TypeError
  end.

Section Pipeline.

Context {codec : Codec}.

(** [ViewIndependentMetrics().evaluate], the metrics collaborator. *)
Variable evaluate : eval_args -> Env -> result string * Env.

(** [Base.run] (lines 100-157). *)
Definition Base_run (self : object)
    (pcfile src_dir nor_dir exp_dir : Path.t) (color resolution : value)
    : M run_event unit :=
  let self := setattr self "_color" color in
  let self := setattr self "_resolution" resolution in
  p ← call_method self (mangle "Base" "__set_filepath") Base
        (set_filepath self pcfile src_dir nor_dir exp_dir);
  enc_time ← timer (
    _ ← emit (RunEncode (Path.to_string (in_pcfile p))
                        (Path.to_string (bin_file p)));
    relabel RunIO (encode self (Path.to_string (in_pcfile p))
                               (Path.to_string (bin_file p))));
  dec_time ← timer (
    _ ← emit (RunDecode (Path.to_string (bin_file p))
                        (Path.to_string (out_pcfile p)));
    relabel RunIO (decode self (Path.to_string (bin_file p))
                               (Path.to_string (out_pcfile p))));
  bin_files ← glob_file (Path.parent (bin_file p))
                 (Path.stem (bin_file p) +:+ "*") true;
  let args := EvalArgs (nor_pcfile p) (out_pcfile p) color resolution
                enc_time dec_time bin_files in
  _ ← emit (RunEvaluate args);
  report ← extern (evaluate args);
  open_write (evl_log p) report.

End Pipeline.

(** [Base.__init__] (lines 15-17), run on a new instance of class [c];
    [load_cfg] is the configuration collaborator. *)
Definition fresh (c : cls) (cfg use_gpu : value) : object :=
  Object c (<["_use_gpu" := use_gpu]> (<["_algs_cfg" := cfg]> ∅)).

Definition Base_init {E} (load_cfg : Path.t -> Env -> result value * Env)
    (c : cls) (algs_cfg_file : string) (use_gpu : value) : M E object :=
  e ← get_env;
  cfg ← extern (load_cfg (Path.resolve (cwd e) (Path.of_string algs_cfg_file)));
  ret (fresh c cfg use_gpu).

(** [GPCC.__init__] and [PCGCv1.__init__] call [super().__init__()]
    without the configuration file the base constructor requires. *)
Definition GPCC_init {E} : M E object := raise TypeError.
Definition PCGCv1_init {E} : M E object := raise TypeError.

Section Dataset.

Context {codec : Codec}.
Variable evaluate : eval_args -> Env -> result string * Env.
Variable load_cfg : Path.t -> Env -> result value * Env.
Variable getAvailable : gpu_policy -> list nat.

(** [Path(__file__)] of [base.py]. *)
Variable module_file : Path.t.

(** [partial(self.run, src_dir=..., ...)] applied to one file.  The run
    of [PCGCv1] has a required parameter [scale] that the partial
    application does not bind. *)
Definition bound_run (owner : cls) (self : object)
    (src_dir : Path.t) (nor_dir : value) (exp_dir : Path.t)
    (color resolution : value) (pcfile : Path.t) : M run_event unit :=
  match owner with
  | Base =>
      nor_dir ← lift (as_str nor_dir);
      Base_run evaluate self pcfile src_dir (Path.of_string nor_dir) exp_dir
        color resolution
  | _ => raise TypeError
  end.

(** [Base.run_dataset] (lines 49-98). *)
Definition run_dataset (sched : schedule Path.t) (self : object)
    (ds_name : string) (exp_dir : Path.t) (ds_cfg_file : string)
    : M (pool_event Path.t run_event) unit :=
  rate ← lift (get_data self "_rate");
  rate ← lift (as_str rate);
  let exp_dir := Path.joinpath exp_dir (Path.of_string rate) in
  _ ← emit (PoolLog INFO
        ("Start to run experiments on " +:+ ds_name +:+ " dataset with "
         +:+ cls_name (ob_class self) +:+ " in " +:+ Path.to_string exp_dir));
  e ← get_env;
  let ds_cfg_path :=
    if String.eqb ds_cfg_file "cfgs/datasets.yml"
    then Path.resolve (cwd e)
           (Path.joinpath (Path.parent (Path.parent module_file))
              (Path.of_string ds_cfg_file))
    else Path.of_string ds_cfg_file in
  ds_cfg ← extern (load_cfg ds_cfg_path);
  ds ← lift (subscript ds_cfg ds_name);
  dataset_dir ← lift (subscript ds "dataset_dir");
  dataset_dir ← lift (as_str dataset_dir);
  test_pattern ← lift (subscript ds "test_pattern");
  test_pattern ← lift (as_str test_pattern);
  pc_files ← glob_file (Path.of_string dataset_dir) test_pattern false;
  run_attr ← lift (getattr self "run");
  owner ← (match run_attr with
           | ClassAttr k _ => ret k
           | InstAttr _ => raise TypeError
           end);
  nor_dir ← lift (subscript ds "dataset_w_normal_dir");
  color ← lift (subscript ds "color");
  resolution ← lift (subscript ds "resolution");
  use_gpu ← lift (get_data self "_use_gpu");
  parallel getAvailable sched
    (bound_run owner self (Path.of_string dataset_dir) nor_dir exp_dir
       color resolution)
    pc_files use_gpu.

End Dataset.

(** ** [algs_wrapper/GPCC.py] *)

Section GPCC.

Variable sp_run :
  list string -> bool -> option string -> Env -> result completed * Env.

(** [self._algs_cfg[self.rate][key]] *)
Definition rate_param (self : object) (key : string) : result value :=
  match get_data self "_algs_cfg" with
  | Ok cfg =>
      match rate_get self with
      | Ok r =>
          match as_str r with
          | Ok r =>
              match subscript cfg r with
              | Ok params => subscript params key
              | Raise x => Raise x
              end
          | Raise x => Raise x
          end
      | Raise x => Raise x
      end
  | Raise x => Raise x
  end.

(** [GPCC.encode] (lines 8-22): a failed command becomes an
    [AssertionError]. *)
Definition GPCC_encode (self : object) (in_pcfile bin_file : string)
    : M io_event unit :=
  cfg ← lift (get_data self "_algs_cfg");
  encoder ← lift (subscript cfg "encoder");
  scale ← lift (rate_param self "positionQuantizationScale");
  let cmd := [ "--uncompressedDataPath=" +:+ in_pcfile;
               "--compressedStreamPath=" +:+ bin_file;
               "--positionQuantizationScale=" +:+ py_str scale;
               "--mergeDuplicatedPoints=1";
               "--mode=0" ] in
  color ← lift (get_data self "_color");
  let cmd := if eq_one color then cmd ++ ["--attribute=color"] else cmd in
  rootdir ← lift (subscript cfg "rootdir");
  encoder ← lift (as_str encoder);
  rootdir ← lift (as_str rootdir);
  ok ← execute_cmd sp_run (encoder :: cmd) false (Some rootdir);
  py_assert ok.

(** [GPCC.decode] (lines 24-32). *)
Definition GPCC_decode (self : object) (bin_file out_pcfile : string)
    : M io_event unit :=
  cfg ← lift (get_data self "_algs_cfg");
  decoder ← lift (subscript cfg "decoder");
  let cmd := [ "--compressedStreamPath=" +:+ bin_file;
               "--reconstructedDataPath=" +:+ out_pcfile;
               "--mode=1" ] in
  rootdir ← lift (subscript cfg "rootdir");
  decoder ← lift (as_str decoder);
  rootdir ← lift (as_str rootdir);
  ok ← execute_cmd sp_run (decoder :: cmd) false (Some rootdir);
  py_assert ok.

#[local] Instance GPCC_codec : Codec :=
  {| encode := GPCC_encode; decode := GPCC_decode |}.

End GPCC.

(** ** [algs_wrapper/PCGCv1.py] *)

(** What a command list of [PCGCv1] holds: literals, path objects and
    configuration values, unconverted. *)
Inductive cmd_arg : Type :=
| ALit (s : string)
| APath (p : Path.t)
| AVal (v : value).

(** [make_encode_cmd] and [make_decode_cmd] (lines 13-39) differ in the
    verb only. *)
Definition make_cmd (verb : string) (self : object) (src dst : Path.t)
    : result (list cmd_arg) :=
  match get_data self "_algs_cfg" with
  | Ok cfg =>
      match subscript cfg "python" with
      | Ok python =>
          match subscript cfg "test_script" with
          | Ok script =>
              match rate_param self "ckpt_dir" with
              | Ok ckpt =>
                  match rate_param self "scale" with
                  | Ok scale =>
                      match rate_param self "rho" with
                      | Ok rho =>
                          Ok [ AVal python; AVal script; ALit verb;
                               APath src; APath dst;
                               ALit "--ckpt_dir"; AVal ckpt;
                               ALit "--scale"; ALit (py_str scale);
                               ALit "--rho"; ALit (py_str rho) ]
                      | Raise x => Raise x
                      end
                  | Raise x => Raise x
                  end
              | Raise x => Raise x
              end
          | Raise x => Raise x
          end
      | Raise x => Raise x
      end
  | Raise x => Raise x
  end.

Definition make_encode_cmd := make_cmd "compress".
Definition make_decode_cmd := make_cmd "decompress".

Section PCGCv1.

Variable evaluate : eval_args -> Env -> result string * Env.

(** The override calls [self._set_filepath] and [self._run_command].
    What such a call does once the name is found is left open here: no
    class of the sources binds either name.  [_run_command] is handed a
    one-element list to put the duration in; the model returns the
    element with the verdict. *)
Variable call_set_filepath :
  attribute -> object -> Path.t -> Path.t -> Path.t -> Path.t ->
  M run_event job_paths.
Variable call_run_command :
  attribute -> object -> list cmd_arg -> Q -> value ->
  M run_event (bool * Q).

(** [PCGCv1.run] (lines 43-127). *)
Definition PCGCv1_run (self : object)
    (pcfile src_dir nor_dir exp_dir : Path.t) (scale color resolution : value)
    (gpu_queue : value) : M run_event unit :=
  let self := setattr self "_pc_scale" scale in
  let self := setattr self "_color" color in
  f ← lift (getattr self "_set_filepath");
  p ← call_set_filepath f self pcfile src_dir nor_dir exp_dir;
  enc_cmd ← lift (make_encode_cmd self (in_pcfile p) (bin_file p));
  dec_cmd ← lift (make_decode_cmd self (bin_file p) (out_pcfile p));
  let enc_time := (-1)%Q in
  let dec_time := (-1)%Q in
  f ← lift (getattr self "_run_command");
  '(ok, enc_time) ← call_run_command f self enc_cmd enc_time gpu_queue;
  if negb ok then ret tt else
  f ← lift (getattr self "_run_command");
  '(ok, dec_time) ← call_run_command f self dec_cmd dec_time gpu_queue;
  if negb ok then ret tt else
  bin_files ← glob_file (Path.parent (bin_file p))
                 (Path.stem (bin_file p) +:+ "*") true;
  let args := EvalArgs (nor_pcfile p) (out_pcfile p) color resolution
                enc_time dec_time bin_files in
  _ ← emit (RunEvaluate args);
  report ← extern (evaluate args);
  open_write (evl_log p) report.

End PCGCv1.

(** ** Notions the properties are stated with *)

(** Where the match of [re.search] sits: at the head of a line of the
    string. *)
Inductive line_match : string -> string -> Prop :=
| line_match_head s p :
    Re.match_here s = Some p -> line_match s p
| line_match_later c s p :
    line_match_after (Ascii.eqb c Re.newline) s p -> line_match (String c s) p
with line_match_after : bool -> string -> string -> Prop :=
| line_match_nl s p : line_match s p -> line_match_after true s p
| line_match_skip c s p b :
    line_match_after (Ascii.eqb c Re.newline) s p ->
    line_match_after b (String c s) p.

Definition rate_warning : io_event :=
  IoLog WARNING "Invalid rate control parameters. Use 'r1', 'r2', etc.".

(** A string whose second line, not its first, starts with the pattern. *)
Definition two_lines : string := "x" +:+ nl +:+ "r1".

(** A caller that tries one assignment after the other, going on after
    each error. *)
Definition attempts (self : object) (tried : list string) (e : Env) : object :=
  foldl (fun o s => assign_rate o s e) self tried.

(** The instance attributes the classes of the sources assign. *)
Definition instance_attrs : list string :=
  ["_algs_cfg"; "_use_gpu"; "_rate"; "_color"; "_resolution"; "_pc_scale"].

(** An instance nobody has attached further attributes to. *)
Definition plain (o : object) : Prop :=
  forall k, is_Some (ob_dict o !! k) -> k ∈ instance_attrs.

(** ** A small world to run the code in *)

Module Scenario.

(** A disk with the point cloud [/data/src/cube.ply] on it. *)
Definition disk : gmap (list string) node :=
  <[ ["/"; "data"; "src"; "cube.ply"] := File "ply" ]>
  (<[ ["/"; "data"; "src"] := Dir ]>
  (<[ ["/"; "data"] := Dir ]>
  (<[ ["/"] := Dir ]> ∅))).

Definition world : Env := MkEnv disk ["/"] 0.

Definition algs_cfg : value :=
  VDict [ ("bin_suffix", VStr ".bin");
          ("encoder", VStr "tmc3");
          ("decoder", VStr "tmc3");
          ("rootdir", VStr "/opt/gpcc");
          ("r1", VDict [("positionQuantizationScale", VFloat "0.5")]) ].

Definition datasets : value :=
  VDict [ ("demo", VDict [ ("dataset_dir", VStr "/data/src");
                           ("dataset_w_normal_dir", VStr "/data/nor");
                           ("test_pattern", VStr "*.ply");
                           ("color", VInt 0);
                           ("resolution", VNone) ]) ].

Definition load_cfg (_ : Path.t) (e : Env) : result value * Env :=
  (Ok datasets, e).

Definition evaluate (_ : eval_args) (e : Env) : result string * Env :=
  (Ok "report", e).

(** A codec step that leaves its output file behind, or fails as
    [GPCC] does. *)
Definition step (works : bool) (content : string) (dst : string)
    : M io_event unit :=
  if works then
    e ← get_env;
    put_env (set_fs e (<[Path.of_string dst := File content]> (fs e)))
  else raise AssertionError.

Definition stub (enc_works dec_works : bool) : Codec :=
  {| encode := fun _ _ dst => step enc_works "bits" dst;
     decode := fun _ _ dst => step dec_works "points" dst |}.

(** The operating system knows two commands. *)
Definition sp_run (cmd : list string) (_ : bool) (_ : option string)
    (e : Env) : result completed * Env :=
  match cmd with
  | "true" :: _ => (Ok (Completed 0 "" ""), e)
  | "false" :: _ => (Ok (Completed 1 "" ""), e)
  | _ => (Raise FileNotFoundError, e)
  end.

Definition in_order {I} : schedule I := Schedule (fun l => l) 0.

Definition no_gpu (_ : gpu_policy) : list nat := [].
Definition two_gpus (_ : gpu_policy) : list nat := [0; 1]%nat.

Definition plugin (c : cls) : object := fresh c algs_cfg (VBool false).

Definition module_file : Path.t :=
  ["/"; "opt"; "PCCArena"; "algs_wrapper"; "base.py"].

End Scenario.

(** A command the operating system cannot start. *)
Definition missing_tool : list string := ["no-such-tool"].

(** The items whose task the pool started, in order. *)
Definition tasks_of {I E} (t : list (pool_event I E)) : list I :=
  omap (fun ev => match ev with PoolTask x => Some x | _ => None end) t.

(** The pools the dispatcher created. *)
Definition pools_of {I E} (t : list (pool_event I E)) : list (option nat) :=
  omap (fun ev => match ev with PoolSpawn n => Some n | _ => None end) t.

Definition no_gpu_message : string :=
  "No available GPU. Check with the threshold parameters "
  +:+ "of ``GPUtil.getAvailable()``".

(** A job that fails on the file [a.ply] and works on any other. *)
Definition picky (item : string) : M run_event unit :=
  if String.eqb item "a.ply" then raise AssertionError
  else emit (RunWrite [item] "report").

(** The instance as [run] leaves it for the codec: [_color] and
    [_resolution] assigned. *)
Definition job_self (self : object) (color resolution : value) : object :=
  setattr (setattr self "_color" color) "_resolution" resolution.

(** The first stage of [run]: the call of [self.__set_filepath]. *)
Definition resolve_stage (self : object)
    (pcfile src_dir nor_dir exp_dir : Path.t) : M run_event job_paths :=
  call_method self (mangle "Base" "__set_filepath") Base
    (set_filepath self pcfile src_dir nor_dir exp_dir).

(** What a trace of the pipeline holds of each kind. *)
Definition encode_calls (t : list run_event) : list (string * string) :=
  omap (fun ev => match ev with RunEncode a b => Some (a, b) | _ => None end) t.

Definition decode_calls (t : list run_event) : list (string * string) :=
  omap (fun ev => match ev with RunDecode a b => Some (a, b) | _ => None end) t.

Definition evaluations (t : list run_event) : list eval_args :=
  omap (fun ev => match ev with RunEvaluate a => Some a | _ => None end) t.

Definition log_writes (t : list run_event) : list (list string * string) :=
  omap (fun ev => match ev with RunWrite f c => Some (f, c) | _ => None end) t.

(** A computation that produces no event. *)
Definition silent {E A} (m : M E A) : Prop := forall e, trace (m e) = [].

Section Stages.

Context {codec : Codec}.
Variable evaluate : eval_args -> Env -> result string * Env.

Implicit Types (self : object) (p : job_paths) (e : Env).

(** The codec calls of a job with paths [p]. *)
Definition encode_step self p : M io_event unit :=
  encode self (Path.to_string (in_pcfile p)) (Path.to_string (bin_file p)).

Definition decode_step self p : M io_event unit :=
  decode self (Path.to_string (bin_file p)) (Path.to_string (out_pcfile p)).

Definition encode_mark p : run_event :=
  RunEncode (Path.to_string (in_pcfile p)) (Path.to_string (bin_file p)).

Definition decode_mark p : run_event :=
  RunDecode (Path.to_string (bin_file p)) (Path.to_string (out_pcfile p)).

(** What [run] does once the paths are there. *)
Definition after_resolve self (color resolution : value) p : M run_event unit :=
  enc_time ← timer (_ ← emit (encode_mark p);
                    relabel RunIO (encode_step self p));
  dec_time ← timer (_ ← emit (decode_mark p);
                    relabel RunIO (decode_step self p));
  bin_files ← glob_file (Path.parent (bin_file p))
                 (Path.stem (bin_file p) +:+ "*") true;
  let args := EvalArgs (nor_pcfile p) (out_pcfile p) color resolution
                enc_time dec_time bin_files in
  _ ← emit (RunEvaluate args);
  report ← extern (evaluate args);
  open_write (evl_log p) report.

(** The last stage: evaluation and the log file. *)
Definition report_stage (args : eval_args) p : M run_event unit :=
  _ ← emit (RunEvaluate args);
  report ← extern (evaluate args);
  open_write (evl_log p) report.

End Stages.

(** The job of the scenario: [cube.ply] of the dataset, under rate
    [r1] of the experiment root [/exp]. *)
Definition scenario_run (codec : Codec) : M run_event unit :=
  @Base_run codec Scenario.evaluate (Scenario.plugin GPCC)
    (Path.of_string "cube.ply") (Path.of_string "/data/src")
    (Path.of_string "/data/nor")
    (Path.joinpath (Path.of_string "/exp") (Path.of_string "r1"))
    (VInt 0) VNone.

(** [e'] is [e] with some missing directories created: nothing that was
    there has changed. *)
Definition grows (e e' : Env) : Prop :=
  cwd e' = cwd e /\ now e' = now e /\
  forall q, fs e' !! q = fs e !! q \/ (fs e !! q = None /\ fs e' !! q = Some Dir).

(** No regular file sits where the directory [/ws] or one of its
    ancestors is to be. *)
Definition clear_way (e : Env) (ws : list string) : Prop :=
  fs e !! ["/"] = Some Dir /\
  forall n, fs e !! ("/" :: take n ws) = None \/
            fs e !! ("/" :: take n ws) = Some Dir.

(** The dataset run of the scenario: the plugin with rate [r1] assigned,
    the dataset [demo], the experiment root [/exp]. *)
Definition scenario_dataset : out (pool_event Path.t run_event) unit :=
  @run_dataset (Scenario.stub true true) Scenario.evaluate Scenario.load_cfg
    Scenario.no_gpu Scenario.module_file Scenario.in_order
    (assign_rate (Scenario.plugin GPCC) "r1" Scenario.world)
    "demo" (Path.of_string "/exp") "cfgs/datasets.yml" Scenario.world.

(** The events of the jobs in a trace of the dispatcher. *)
Definition jobs_of {I E} (t : list (pool_event I E)) : list E :=
  omap (fun ev => match ev with PoolJob j => Some j | _ => None end) t.

(** The paths of the scenario. *)
Definition cube_paths (nor_dir : Path.t) : job_paths :=
  JobPaths ["/"; "data"; "src"; "cube.ply"]
           (Path.joinpath nor_dir ["cube.ply"])
           ["/"; "exp"; "r1"; "bin"; "cube.bin"]
           ["/"; "exp"; "r1"; "dec"; "cube.ply"]
           ["/"; "exp"; "r1"; "evl"; "cube.log"].

(** A [GPCC] plugin with rate [r1] whose encoder and decoder are the
    given commands. *)
Definition gpcc_plugin (encoder decoder : string) : object :=
  setattr
    (fresh GPCC
       (VDict [ ("bin_suffix", VStr ".bin");
                ("encoder", VStr encoder);
                ("decoder", VStr decoder);
                ("rootdir", VStr "/opt/gpcc");
                ("r1", VDict [("positionQuantizationScale", VFloat "0.5")]) ])
       (VBool false))
    "_rate" (VStr "r1").

(** The job of the scenario run by [GPCC] with these commands. *)
Definition gpcc_run (encoder decoder : string) : M run_event unit :=
  @Base_run (GPCC_codec Scenario.sp_run) Scenario.evaluate
    (gpcc_plugin encoder decoder)
    (Path.of_string "cube.ply") (Path.of_string "/data/src")
    (Path.of_string "/data/nor")
    (Path.joinpath (Path.of_string "/exp") (Path.of_string "r1"))
    (VInt 0) VNone.

(** A tool that exits nonzero and prints a byte that is no UTF-8. *)
Definition garbled_run (cmd : list string) (_ : bool) (_ : option string)
    (e : Env) : result completed * Env :=
  (Ok (Completed 1 (String (ascii_of_nat 255) "") ""), e).

(** A job that takes the clock back by one second. *)
Definition clock_set_back : M io_event unit :=
  e ← get_env;
  put_env (MkEnv (fs e) (cwd e) (now e - 1)%Q).

(** Every character is one of [1] to [9]. *)
Fixpoint all_rate_digits (s : string) : bool :=
  match s with
  | EmptyString => true
  | String c s' => Re.is_rate_digit c && all_rate_digits s'
  end.

(** The string does not go on with a digit [1] to [9]. *)
Definition no_digit_ahead (s : string) : bool :=
  match s with
  | EmptyString => true
  | String c _ => negb (Re.is_rate_digit c)
  end.

(** The match of the last string of the list that [re.search] accepts. *)
Fixpoint last_match (tried : list string) : option string :=
  match tried with
  | [] => None
  | s :: rest =>
      match last_match rest with
      | Some m => Some m
      | None => Re.search s
      end
  end.

(** The checks [with_suffix] makes on the suffix itself. *)
Definition suffix_ok (sfx : string) : bool :=
  negb (Path.has_slash sfx)
  && negb ((negb (String.eqb sfx "") && negb (Path.starts_with_dot sfx))
           || String.eqb sfx ".").

(** No component is [..]. *)
Definition plain_parts (ws : list string) : Prop :=
  Forall (fun w => w <> "..") ws.

(** The directory of item [pc] in the subtree [d] of the experiment
    root [/ws]. *)
Definition subtree_dir (ws : list string) (d : string) (pc : Path.t)
    : list string :=
  ws ++ [d] ++ removelast pc.

(** The scenario's disk with a regular file where the directory [dec]
    of the experiment is to be. *)
Definition blocked_world : Env :=
  MkEnv (<[ ["/"; "exp"; "r1"; "dec"] := File "not a directory" ]>
         (<[ ["/"; "exp"; "r1"] := Dir ]>
         (<[ ["/"; "exp"] := Dir ]> Scenario.disk)))
        ["/"] 0.


(** [self._algs_cfg['bin_suffix']], as a string. *)
Definition bin_suffix_of (self : object) : result string :=
  match get_data self "_algs_cfg" with
  | Ok cfg =>
      match subscript cfg "bin_suffix" with
      | Ok v => as_str v
      | Raise x => Raise x
      end
  | Raise x => Raise x
  end.

(** A metrics collaborator that fails. *)
Definition failing_evaluate (_ : eval_args) (e : Env) : result string * Env :=
  (Raise KeyError, e).

(** A run of the dispatcher in which no job did anything: no event of a
    job, a normal return only with no task started, and [TypeError] as
    soon as one was. *)
Definition unrunnable (o : out (pool_event Path.t run_event) unit) : Prop :=
  jobs_of (trace o) = [] /\
  (res o = Ok tt -> tasks_of (trace o) = []) /\
  (tasks_of (trace o) <> [] -> res o = Raise TypeError).

(** A trace of the dispatcher without tasks and job events. *)
Definition idle {I E} (t : list (pool_event I E)) : Prop :=
  tasks_of t = [] /\ jobs_of t = [].

(** A configuration collaborator that knows no dataset. *)
Definition no_datasets (_ : Path.t) (e : Env) : result value * Env :=
  (Ok (VDict []), e).

(** The argument vector [GPCC.encode] hands to [execute_cmd]. *)
Definition encode_argv (encoder in_pcfile bin_file : string)
    (scale color : value) : list string :=
  [ encoder;
    "--uncompressedDataPath=" +:+ in_pcfile;
    "--compressedStreamPath=" +:+ bin_file;
    "--positionQuantizationScale=" +:+ py_str scale;
    "--mergeDuplicatedPoints=1";
    "--mode=0" ]
  ++ (if eq_one color then ["--attribute=color"] else []).

(** The line [execute_cmd] logs for a failed command. *)
Definition failure_log (cmd : list string) : io_event :=
  IoLog INFO ("The stdout and stderr of executed command: "
              +:+ command_line cmd).

(** A [PCGCv1] plugin with a configuration for rate [r1], the rate set. *)
Definition pcgc_plugin : object :=
  setattr
    (fresh PCGCv1
       (VDict [ ("bin_suffix", VStr "");
                ("python", VStr "python3");
                ("test_script", VStr "test.py");
                ("rootdir", VStr "/opt/pcgc");
                ("r1", VDict [ ("ckpt_dir", VStr "ckpts/r1");
                               ("scale", VInt 1);
                               ("rho", VFloat "1.0") ]) ])
       (VBool true))
    "_rate" (VStr "r1").

(** The command [PCGCv1] builds for [verb]. *)
Definition pcgc_cmd (python script : value) (verb : string)
    (src dst : Path.t) (ckpt scale rho : value) : list cmd_arg :=
  [ AVal python; AVal script; ALit verb; APath src; APath dst;
    ALit "--ckpt_dir"; AVal ckpt;
    ALit "--scale"; ALit (py_str scale);
    ALit "--rho"; ALit (py_str rho) ].

(** [pcgc_plugin] with the two names the override calls bound on the
    instance, and callees for them: path resolution that returns fixed
    paths, and a command runner that fails every command whose verb is
    [failing]. *)
Definition patched_plugin : object :=
  setattr (setattr pcgc_plugin "_set_filepath" (VStr "set_filepath"))
    "_run_command" (VStr "run_command").

Definition fixed_paths : job_paths :=
  JobPaths ["/"; "data"; "src"; "cube.ply"] ["/"; "data"; "nor"; "cube.ply"]
    ["/"; "exp"; "r1"; "bin"; "cube"] ["/"; "exp"; "r1"; "dec"; "cube.ply"]
    ["/"; "exp"; "r1"; "evl"; "cube.log"].

Definition patched_set_filepath (_ : attribute) (_ : object)
    (_ _ _ _ : Path.t) : M run_event job_paths :=
  ret fixed_paths.

Definition patched_run_command (failing : string) (_ : attribute)
    (_ : object) (cmd : list cmd_arg) (t : Q) (_ : value)
    : M run_event (bool * Q) :=
  match nth_error cmd 2 with
  | Some (ALit verb) => ret (negb (String.eqb verb failing), t)
  | _ => ret (false, t)
  end.

(** * Properties *)

(** ** The monad *)

Lemma out_eta {E A} (o : out E A) : Out (res o) (env_of o) (trace o) = o.
Proof. by destruct o. Qed.

Lemma bind_ok {E A B} (m : M E A) (f : A -> M E B) e a e1 t1 :
  m e = Out (Ok a) e1 t1 ->
  (m ≫= f) e = Out (res (f a e1)) (env_of (f a e1)) (t1 ++ trace (f a e1)).
Proof. intros H. unfold mbind, M_bind, bind. by rewrite H. Qed.

Lemma bind_raise {E A B} (m : M E A) (f : A -> M E B) e x e1 t1 :
  m e = Out (Raise x) e1 t1 ->
  (m ≫= f) e = Out (Raise x) e1 t1.
Proof. intros H. unfold mbind, M_bind, bind. by rewrite H. Qed.

Lemma bind_lift_ok {E A B} (a : A) (f : A -> M E B) e :
  (lift (Ok a) ≫= f) e = f a e.
Proof. unfold mbind, M_bind, bind, lift. simpl. apply out_eta. Qed.

Lemma bind_lift_raise {E A B} (x : exn) (f : A -> M E B) e :
  (lift (Raise x) ≫= f) e = Out (Raise x) e [].
Proof. reflexivity. Qed.

Lemma bind_ret {E A B} (a : A) (f : A -> M E B) e :
  (ret a ≫= f) e = f a e.
Proof. unfold mbind, M_bind, bind, ret. simpl. apply out_eta. Qed.

Lemma bind_emit {E B} (ev : E) (f : unit -> M E B) e :
  (emit ev ≫= f) e = Out (res (f tt e)) (env_of (f tt e)) (ev :: trace (f tt e)).
Proof. reflexivity. Qed.

(** ** The rate tag *)

Lemma take_digits_all c ds :
  Re.take_digits (String c ds) <> "" -> Re.is_rate_digit c = true.
Proof. simpl. by destruct (Re.is_rate_digit c). Qed.

(** A match at the very start of the string is the one [re.search]
    returns. *)
Lemma search_match_here s p : Re.match_here s = Some p -> Re.search s = Some p.
Proof.
  unfold Re.search. destruct s as [|c s]; simpl; [done|].
  intros H. by rewrite H.
Qed.

Lemma take_digits_prefix s : String.prefix (Re.take_digits s) s = true.
Proof.
  induction s as [|c s IH]; simpl; [done|].
  destruct (Re.is_rate_digit c); simpl; [|done].
  destruct (ascii_dec c c); [done|congruence].
Qed.

(** What [match_here] returns is a prefix of the string. *)
Lemma match_here_prefix s p :
  Re.match_here s = Some p -> String.prefix p s = true.
Proof.
  destruct s as [|c s]; simpl; [done|].
  destruct (Ascii.eqb c "r"); [|done].
  destruct (Re.take_digits s) eqn:Hd; [done|].
  intros [= <-]. simpl. destruct (ascii_dec c c); [|congruence].
  rewrite <- Hd. apply take_digits_prefix.
Qed.

Lemma search_from_sound s : forall b p,
  Re.search_from b s = Some p -> line_match_after b s p.
Proof.
  induction s as [|c s IH]; intros b p.
  - destruct b; simpl; discriminate.
  - destruct b.
    + cbn [Re.search_from].
      destruct (Re.match_here (String c s)) eqn:Hm.
      * intros [= <-]. by apply line_match_nl, line_match_head.
      * intros H. apply line_match_nl, line_match_later, IH, H.
    + cbn [Re.search_from]. intros H. apply line_match_skip, IH, H.
Qed.

Lemma rate_set_match self s m e :
  Re.search s = Some m ->
  rate_set self s e = Out (Ok (setattr self "_rate" (VStr m))) e [].
Proof. intros H. unfold rate_set. rewrite H. reflexivity. Qed.

Lemma rate_set_no_match self s e :
  Re.search s = None ->
  rate_set self s e = Out (Raise AttributeError) e [rate_warning].
Proof. intros H. unfold rate_set. rewrite H. reflexivity. Qed.

Lemma rate_get_setattr self m :
  rate_get (setattr self "_rate" (VStr m)) = Ok (VStr m).
Proof.
  unfold rate_get, get_data, getattr, lookup_attr. simpl.
  replace (find_owner (ob_class self) "_rate") with (@None cls)
    by (by destruct (ob_class self)).
  by rewrite lookup_insert_eq.
Qed.

(** C3, as stated, fails: the string [x\nr1] does not start with
    [r[1-9]+], and [r1] is no prefix of it, yet assigning it raises no
    warning and stores [r1]. *)
Lemma rate_set_second_line :
  Re.match_here two_lines = None /\
  String.prefix "r1" two_lines = false /\
  forall c cfg ug e,
    let o := rate_set (fresh c cfg ug) two_lines e in
    trace o = [] /\
    rate_get (assign_rate (fresh c cfg ug) two_lines e) = Ok (VStr "r1").
Proof.
  split; [reflexivity|]. split; [reflexivity|].
  intros c cfg ug e. unfold assign_rate.
  rewrite (rate_set_match _ two_lines "r1" e eq_refl). simpl. split; [done|].
  apply rate_get_setattr.
Qed.

(** C3, amended: when [re.search] finds [^r[1-9]+] at the head of some
    line of the string, the assignment stores exactly the matched text,
    without a warning, and the text is the matched prefix whenever the
    string itself starts with the pattern; when no line starts with the
    pattern the assignment emits the warning and leaves the object, and
    so the rate tag, as it was. *)
Theorem rate_set_stores_match (self : object) (s : string) (e : Env) :
  match Re.search s with
  | Some m =>
      line_match s m /\
      (forall p, Re.match_here s = Some p -> m = p /\ String.prefix p s = true) /\
      trace (rate_set self s e) = [] /\
      rate_get (assign_rate self s e) = Ok (VStr m)
  | None =>
      Re.match_here s = None /\
      trace (rate_set self s e) = [rate_warning] /\
      assign_rate self s e = self
  end.
Proof.
  destruct (Re.search s) as [m|] eqn:Hs.
  - split.
    { apply search_from_sound in Hs.
      inversion Hs; subst; [done | by apply line_match_later]. }
    split.
    { intros p Hp. pose proof (search_match_here _ _ Hp) as Hs'.
      rewrite Hs in Hs'. injection Hs' as ->. split; [done|].
      by apply match_here_prefix. }
    unfold assign_rate. rewrite (rate_set_match _ _ _ _ Hs). simpl.
    split; [done|]. apply rate_get_setattr.
  - split.
    { destruct (Re.match_here s) eqn:Hm; [|done].
      apply search_match_here in Hm. congruence. }
    unfold assign_rate. by rewrite (rate_set_no_match _ _ _ Hs).
Qed.

Lemma assign_rate_no_match self s e :
  Re.search s = None -> assign_rate self s e = self.
Proof. intros H. unfold assign_rate. by rewrite rate_set_no_match. Qed.

Lemma attempts_no_match self tried e :
  Forall (fun s => Re.search s = None) tried -> attempts self tried e = self.
Proof.
  unfold attempts. intros H. revert self.
  induction H as [|s l Hs _ IH]; intros self; simpl; [done|].
  by rewrite assign_rate_no_match.
Qed.

Lemma find_owner_rate c : find_owner c "_rate" = None.
Proof. by destruct c. Qed.

Lemma fresh_rate_unset c cfg ug : ob_dict (fresh c cfg ug) !! "_rate" = None.
Proof. unfold fresh. simpl. by simplify_map_eq. Qed.

Lemma rate_get_fresh c cfg ug : rate_get (fresh c cfg ug) = Raise AttributeError.
Proof.
  unfold rate_get, get_data, getattr, lookup_attr.
  change (ob_class (fresh c cfg ug)) with c.
  by rewrite find_owner_rate, fresh_rate_unset.
Qed.

(** The constructor leaves the rate tag out. *)
Lemma Base_init_fresh {E} load_cfg c file ug e cfg e' :
  load_cfg (Path.resolve (cwd e) (Path.of_string file)) e = (Ok cfg, e') ->
  Base_init (E:=E) load_cfg c file ug e = Out (Ok (fresh c cfg ug)) e' [].
Proof.
  intros H. unfold Base_init, mbind, M_bind, bind, get_env, extern. simpl.
  by rewrite H.
Qed.

(** ** [PCGCv1.run] *)

Lemma plain_absent o k :
  plain o -> k ∉ instance_attrs -> ob_dict o !! k = None.
Proof.
  intros Hp Hk. destruct (ob_dict o !! k) eqn:H; [|done].
  exfalso. apply Hk, Hp. by rewrite H.
Qed.

Lemma plain_fresh c cfg ug : plain (fresh c cfg ug).
Proof.
  intros k [v Hv]. unfold fresh in Hv. simpl in Hv. unfold instance_attrs.
  destruct (decide (k = "_use_gpu")) as [->|]; [set_solver|].
  destruct (decide (k = "_algs_cfg")) as [->|]; [set_solver|].
  by simplify_map_eq.
Qed.

Lemma plain_setattr o k v :
  plain o -> k ∈ instance_attrs -> plain (setattr o k v).
Proof.
  intros Hp Hk j [w Hw]. unfold setattr in Hw. simpl in Hw.
  destruct (decide (j = k)) as [->|Hne]; [done|].
  rewrite lookup_insert_ne in Hw by done. apply Hp. by rewrite Hw.
Qed.

Lemma not_instance_attr k :
  in_names k instance_attrs = false -> k ∉ instance_attrs.
Proof.
  unfold in_names. intros H Hin.
  apply not_true_iff_false in H. apply H.
  apply existsb_exists. exists k. split.
  - by apply list_elem_of_In.
  - apply String.eqb_refl.
Qed.

(** An attribute that neither the instance nor a class of its resolution
    order holds. *)
Lemma getattr_unbound o k :
  plain o ->
  in_names k instance_attrs = false ->
  find_owner (ob_class o) k = None ->
  getattr o k = Raise AttributeError.
Proof.
  intros Hp Hk Ho. unfold getattr, lookup_attr. rewrite Ho.
  rewrite (plain_absent o k Hp); [done|]. by apply not_instance_attr.
Qed.

(** C9: on every plain instance of [PCGCv1], for all arguments and
    whatever the collaborators do, the overriding [run] raises
    [AttributeError] at its first call, before any command is built or
    run: the environment is as it was and nothing has happened.  Neither
    [_set_filepath] nor [_run_command] resolves; the base class binds
    the mangled [_Base__set_filepath] only. *)
Theorem PCGCv1_run_raises
    (evaluate : eval_args -> Env -> result string * Env)
    (call_set_filepath :
       attribute -> object -> Path.t -> Path.t -> Path.t -> Path.t ->
       M run_event job_paths)
    (call_run_command :
       attribute -> object -> list cmd_arg -> Q -> value ->
       M run_event (bool * Q))
    (self : object) (pcfile src_dir nor_dir exp_dir : Path.t)
    (scale color resolution gpu_queue : value) (e : Env) :
  ob_class self = PCGCv1 ->
  plain self ->
  PCGCv1_run evaluate call_set_filepath call_run_command self
    pcfile src_dir nor_dir exp_dir scale color resolution gpu_queue e
  = Out (Raise AttributeError) e [] /\
  getattr self "_set_filepath" = Raise AttributeError /\
  getattr self "_run_command" = Raise AttributeError /\
  class_dict PCGCv1 = ["__init__"; "make_encode_cmd"; "make_decode_cmd"; "run"] /\
  getattr self (mangle "Base" "__set_filepath")
  = Ok (ClassAttr Base "_Base__set_filepath").
Proof.
  intros Hc Hp.
  assert (Hsf : forall o, ob_class o = PCGCv1 -> plain o ->
                          getattr o "_set_filepath" = Raise AttributeError).
  { intros o Ho Hpo. apply getattr_unbound; [done|done|by rewrite Ho]. }
  split.
  - unfold PCGCv1_run. rewrite Hsf; [done|done|].
    apply plain_setattr; [apply plain_setattr; [done|]|]; set_solver.
  - split; [by apply Hsf|]. split.
    + apply getattr_unbound; [done|done|by rewrite Hc].
    + split; [done|]. unfold getattr, lookup_attr. rewrite Hc. simpl.
      rewrite (plain_absent self _ Hp); [done|]. by apply not_instance_attr.
Qed.

(** C10: a plugin as the constructor leaves it, also after any number of
    assignments of strings that [re.search] rejects, has no rate tag:
    reading [rate] raises [AttributeError], and [run_dataset] raises it
    at its first statement, with the environment untouched and nothing
    logged, loaded or dispatched. *)
Theorem rate_unset_raises `{codec : Codec}
    (evaluate : eval_args -> Env -> result string * Env)
    (load_cfg : Path.t -> Env -> result value * Env)
    (getAvailable : gpu_policy -> list nat) (module_file : Path.t)
    (c : cls) (cfg use_gpu : value) (tried : list string) (e0 : Env) :
  Forall (fun s => Re.search s = None) tried ->
  let self := attempts (fresh c cfg use_gpu) tried e0 in
  rate_get self = Raise AttributeError /\
  forall sched ds_name exp_dir ds_cfg_file e,
    run_dataset evaluate load_cfg getAvailable module_file sched self
      ds_name exp_dir ds_cfg_file e
    = Out (Raise AttributeError) e [].
Proof.
  intros Htried self. unfold self. rewrite attempts_no_match by done.
  pose proof (rate_get_fresh c cfg use_gpu) as Hget.
  split; [done|]. intros sched ds_name exp_dir ds_cfg_file e.
  unfold run_dataset. unfold rate_get in Hget. by rewrite Hget.
Qed.

Lemma rate_unset_raises_witness :
  Forall (fun s => Re.search s = None) ["rate1"; "x2"] /\
  rate_get (attempts (Scenario.plugin GPCC) ["rate1"; "x2"] Scenario.world)
  = Raise AttributeError.
Proof.
  assert (H : Forall (fun s => Re.search s = None) ["rate1"; "x2"]).
  { repeat constructor. }
  split; [exact H|].
  exact (proj1 (@rate_unset_raises (Scenario.stub true true)
                  Scenario.evaluate Scenario.load_cfg Scenario.no_gpu
                  Scenario.module_file GPCC Scenario.algs_cfg (VBool false)
                  ["rate1"; "x2"] Scenario.world H)).
Defined.

Lemma PCGCv1_run_raises_witness :
  ob_class (Scenario.plugin PCGCv1) = PCGCv1 /\
  plain (Scenario.plugin PCGCv1) /\
  PCGCv1_run Scenario.evaluate
    (fun _ _ _ _ _ _ => raise TypeError) (fun _ _ _ _ _ => raise TypeError)
    (Scenario.plugin PCGCv1) ["cube.ply"] ["/"; "data"; "src"]
    ["/"; "data"; "nor"] ["/"; "exp"; "r1"] (VInt 1) (VBool false) VNone VNone
    Scenario.world
  = Out (Raise AttributeError) Scenario.world [].
Proof.
  split; [reflexivity|]. split; [apply plain_fresh|].
  apply (PCGCv1_run_raises Scenario.evaluate
           (fun _ _ _ _ _ _ => raise TypeError)
           (fun _ _ _ _ _ => raise TypeError)
           (Scenario.plugin PCGCv1) ["cube.ply"] ["/"; "data"; "src"]
           ["/"; "data"; "nor"] ["/"; "exp"; "r1"]
           (VInt 1) (VBool false) VNone VNone Scenario.world);
    [reflexivity | apply plain_fresh].
Defined.

(** ** The command executor *)

Lemma execute_cmd_spawn_error sp_run cmd shell wd e x e' :
  sp_run cmd shell wd e = (Raise x, e') ->
  execute_cmd sp_run cmd shell wd e = Out (Raise x) e' [IoSpawn cmd].
Proof.
  intros H. unfold execute_cmd, mbind, M_bind, bind, emit, extern. simpl.
  by rewrite H.
Qed.

(** C5, as stated, fails: a command that cannot be started makes
    [subprocess.run] raise, outside the [try], and the caller gets the
    exception where the claim promises a boolean. *)
Lemma execute_cmd_raises :
  res (execute_cmd Scenario.sp_run missing_tool false None Scenario.world)
  = Raise FileNotFoundError /\
  ~ (forall sp_run cmd shell wd e,
       exists b : bool, res (execute_cmd sp_run cmd shell wd e) = Ok b).
Proof.
  split; [reflexivity|]. intros H.
  destruct (H Scenario.sp_run missing_tool false None Scenario.world) as [b Hb].
  discriminate Hb.
Qed.

(** C5, amended: for every argument vector whose process is started,
    the executor gives [true] when the process exits with code zero,
    with nothing logged or printed; on a nonzero exit code it logs the
    full command line and then, the captured output being valid UTF-8,
    prints the captured stdout and stderr and gives [false].  It is a
    boolean the caller gets in these cases, and [true] only for exit
    code zero. *)
Theorem execute_cmd_verdict
    (sp_run : list string -> bool -> option string -> Env ->
              result completed * Env)
    (cmd : list string) (shell : bool) (wd : option string) (e e' : Env)
    (r : completed) :
  sp_run cmd shell wd e = (Ok r, e') ->
  let o := execute_cmd sp_run cmd shell wd e in
  (returncode r = 0%Z -> o = Out (Ok true) e' [IoSpawn cmd]) /\
  (returncode r <> 0%Z ->
   Utf8.valid (stdout r) = true -> Utf8.valid (stderr r) = true ->
   o = Out (Ok false) e'
         [ IoSpawn cmd;
           IoLog INFO ("The stdout and stderr of executed command: "
                       +:+ command_line cmd);
           IoPrint (nl +:+ " " +:+ stdout r);
           IoPrint (nl +:+ " " +:+ stderr r) ]) /\
  (res o = Ok true <-> returncode r = 0%Z) /\
  env_of o = e'.
Proof.
  intros H o. subst o.
  unfold execute_cmd, mbind, M_bind, bind, emit, extern, try_else. simpl.
  rewrite H. simpl.
  destruct (returncode r =? 0)%Z eqn:Hrc; simpl.
  - apply Z.eqb_eq in Hrc. repeat split; try done.
  - apply Z.eqb_neq in Hrc. split; [done|]. split.
    + intros _ Hso Hse. unfold Utf8.decode. rewrite Hso. simpl.
      by rewrite Hse.
    + unfold Utf8.decode.
      destruct (Utf8.valid (stdout r)); simpl;
        [destruct (Utf8.valid (stderr r)); simpl|]; (split; [|done]);
        split; intros ?; try done; discriminate.
Qed.

Lemma execute_cmd_verdict_witness :
  execute_cmd Scenario.sp_run ["false"] false None Scenario.world
  = Out (Ok false) Scenario.world
      [ IoSpawn ["false"];
        IoLog INFO "The stdout and stderr of executed command: false ";
        IoPrint (nl +:+ " ");
        IoPrint (nl +:+ " ") ].
Proof.
  apply (execute_cmd_verdict Scenario.sp_run ["false"] false None
           Scenario.world Scenario.world (Completed 1 "" "") eq_refl);
    [discriminate | reflexivity | reflexivity].
Defined.

(** ** The dispatcher *)

Section DispatcherFacts.

Context {I E : Type}.
Implicit Types (func : I -> M E unit) (t : list E) (items : list I).

Lemma tasks_of_app (t1 t2 : list (pool_event I E)) :
  tasks_of (t1 ++ t2) = tasks_of t1 ++ tasks_of t2.
Proof. apply omap_app. Qed.

Lemma pools_of_app (t1 t2 : list (pool_event I E)) :
  pools_of (t1 ++ t2) = pools_of t1 ++ pools_of t2.
Proof. apply omap_app. Qed.

Lemma tasks_of_jobs t : tasks_of (I:=I) (List.map PoolJob t) = [].
Proof. by induction t. Qed.

Lemma pools_of_jobs t : pools_of (I:=I) (List.map PoolJob t) = [].
Proof. by induction t. Qed.

Lemma tasks_of_task x (t : list (pool_event I E)) :
  tasks_of (PoolTask x :: t) = x :: tasks_of t.
Proof. reflexivity. Qed.

Lemma pools_of_task x (t : list (pool_event I E)) :
  pools_of (PoolTask x :: t) = pools_of t.
Proof. reflexivity. Qed.

Lemma drain_step func n x rest e :
  drain func (S n) (x :: rest) e
  = let o := func x e in
    let o' := drain func n rest (env_of o) in
    Out (res o') (env_of o')
      (PoolTask x :: (List.map PoolJob (trace o) ++ trace o')).
Proof. reflexivity. Qed.

Lemma drain_returns func n items e : res (drain func n items e) = Ok tt.
Proof.
  revert items e. induction n as [|n IH]; intros [|x rest] e; try done.
  rewrite drain_step. simpl. apply IH.
Qed.

Lemma drain_tasks func n items e :
  tasks_of (trace (drain func n items e)) = take n items.
Proof.
  revert items e. induction n as [|n IH]; intros [|x rest] e; try done.
  rewrite drain_step. cbn [trace].
  by rewrite tasks_of_task, tasks_of_app, tasks_of_jobs, IH.
Qed.

Lemma drain_pools func n items e :
  pools_of (trace (drain func n items e)) = [].
Proof.
  revert items e. induction n as [|n IH]; intros [|x rest] e; try done.
  rewrite drain_step. cbn [trace].
  by rewrite pools_of_task, pools_of_app, pools_of_jobs, IH.
Qed.

(** One round of the parent's loop. *)
Lemma imap_step func slack x rest e :
  imap_unordered func slack (x :: rest) e
  = let o := func x e in
    match res o with
    | Ok _ =>
        let o' := imap_unordered func slack rest (env_of o) in
        Out (res o') (env_of o')
          (PoolTask x :: (List.map PoolJob (trace o) ++ trace o'))
    | Raise err =>
        let o' := drain func slack rest (env_of o) in
        Out (Raise err) (env_of o')
          (PoolTask x :: (List.map PoolJob (trace o) ++ trace o' ++ []))
    end.
Proof.
  cbn [imap_unordered]. unfold mbind, M_bind, bind, emit, try_with, relabel.
  cbn [res env_of trace].
  destruct (func x e) as [[[]|err] e1 t1]; cbn [res env_of trace].
  - done.
  - unfold raise. rewrite drain_returns. by cbn [res env_of trace].
Qed.

Lemma imap_pools func slack items e :
  pools_of (trace (imap_unordered func slack items e)) = [].
Proof.
  revert e. induction items as [|x rest IH]; intros e; [done|].
  rewrite imap_step. cbn zeta.
  destruct (res (func x e)); cbn [trace];
    rewrite pools_of_task, !pools_of_app, pools_of_jobs, ?IH, ?drain_pools;
    done.
Qed.

(** What the pool has run when the parent leaves the loop. *)
Lemma imap_outcome func slack items e :
  let o := imap_unordered func slack items e in
  match res o with
  | Ok _ =>
      tasks_of (trace o) = items /\
      forall y, y ∈ items -> exists e_y, res (func y e_y) = Ok tt
  | Raise err =>
      exists pre y post e_y,
        items = pre ++ y :: post /\
        tasks_of (trace o) = pre ++ y :: take slack post /\
        res (func y e_y) = Raise err
  end.
Proof.
  revert e. induction items as [|x rest IH]; intros e.
  { split; [done|]. intros y Hy. by apply elem_of_nil in Hy. }
  cbn zeta. rewrite imap_step. cbn zeta.
  destruct (res (func x e)) as [[]|err] eqn:Hx; cbn [res trace].
  - specialize (IH (env_of (func x e))). cbn zeta in IH.
    destruct (res (imap_unordered func slack rest (env_of (func x e))))
      as [[]|err].
    + destruct IH as [IH Hall]. split.
      * by rewrite tasks_of_task, tasks_of_app, tasks_of_jobs, IH.
      * intros y Hy. apply elem_of_cons in Hy as [->|Hy]; [eauto|].
        by apply Hall.
    + destruct IH as (pre & y & post & e_y & -> & Ht & Hy).
      exists (x :: pre), y, post, e_y. split; [done|]. split; [|done].
      by rewrite tasks_of_task, tasks_of_app, tasks_of_jobs, Ht.
  - exists [], x, rest, e. split; [done|]. split; [|done].
    by rewrite tasks_of_task, !tasks_of_app, tasks_of_jobs, drain_tasks,
      app_nil_r.
Qed.

End DispatcherFacts.

(** C4: with the exclusive-resource flag set the dispatcher asks
    [GPUtil.getAvailable] with the fixed policy (order [first], limit 8,
    load 0.5, memory 0.2).  When no device comes back it logs the error
    and raises [ValueError], the no-available-resource error of the
    code, with no pool created and no task started; otherwise it creates
    one pool, of as many workers as devices came back. *)
Theorem parallel_gpu_pool {I E : Type}
    (getAvailable : gpu_policy -> list nat) (sched : schedule I)
    (func : I -> M E unit) (filelist : list I) (e : Env) :
  let o := parallel getAvailable sched func filelist (VBool true) e in
  fixed_policy = GpuPolicy "first" 8 (1 # 2) (1 # 5) false [] [] /\
  match getAvailable fixed_policy with
  | [] =>
      o = Out (Raise ValueError) e [PoolLog ERROR no_gpu_message] /\
      pools_of (trace o) = [] /\ tasks_of (trace o) = []
  | (_ :: _) as deviceIDs =>
      pools_of (trace o) = [Some (length deviceIDs)] /\
      exists rest, trace o = PoolSpawn (Some (length deviceIDs)) :: rest
  end.
Proof.
  cbn zeta. split; [done|]. unfold parallel. cbn [is_True].
  destruct (getAvailable fixed_policy) as [|d ds] eqn:Hd.
  - done.
  - cbn [length Nat.leb]. unfold mbind, M_bind, bind, ret, emit.
    cbn [res env_of trace app]. split; [|eauto].
    change (pools_of (PoolSpawn ?n :: ?t)) with (n :: pools_of t).
    by rewrite imap_pools.
Qed.






(** ** The per-file pipeline *)

Lemma decode_calls_app t1 t2 :
  decode_calls (t1 ++ t2) = decode_calls t1 ++ decode_calls t2.
Proof. apply omap_app. Qed.

Lemma evaluations_app t1 t2 :
  evaluations (t1 ++ t2) = evaluations t1 ++ evaluations t2.
Proof. apply omap_app. Qed.

Lemma log_writes_app t1 t2 :
  log_writes (t1 ++ t2) = log_writes t1 ++ log_writes t2.
Proof. apply omap_app. Qed.

Lemma encode_calls_app t1 t2 :
  encode_calls (t1 ++ t2) = encode_calls t1 ++ encode_calls t2.
Proof. apply omap_app. Qed.

(** Whatever a codec logs, prints or spawns is none of the pipeline's
    own steps. *)
Lemma io_is_no_step (t : list io_event) :
  encode_calls (List.map RunIO t) = [] /\
  decode_calls (List.map RunIO t) = [] /\
  evaluations (List.map RunIO t) = [] /\
  log_writes (List.map RunIO t) = [].
Proof. by induction t. Qed.

(** Computations that produce no event. *)
Lemma silent_bind {E A B} (m : M E A) (f : A -> M E B) :
  silent m -> (forall a, silent (f a)) -> silent (m ≫= f).
Proof.
  intros Hm Hf e. unfold mbind, M_bind, bind.
  destruct (res (m e)); cbn [trace]; rewrite Hm; [apply Hf | done].
Qed.

Lemma silent_try_with {E A} (body : M E A) handler :
  silent body ->
  (forall x h, handler x = Some h -> silent h) ->
  silent (try_with body handler).
Proof.
  intros Hb Hh e. unfold try_with.
  destruct (res (body e)) as [a|x]; [apply Hb|].
  destruct (handler x) as [h|] eqn:Hx; [|apply Hb].
  cbn [trace]. rewrite Hb. by apply (Hh x h).
Qed.

Lemma silent_ret {E A} (a : A) : silent (ret (E:=E) a).
Proof. done. Qed.

Lemma silent_raise {E A} x : silent (raise (E:=E) (A:=A) x).
Proof. done. Qed.

Lemma silent_lift {E A} (r : result A) : silent (lift (E:=E) r).
Proof. done. Qed.

Lemma silent_get_env {E} : silent (get_env (E:=E)).
Proof. done. Qed.

Lemma silent_put_env {E} e' : silent (put_env (E:=E) e').
Proof. done. Qed.

Lemma silent_extern {E A} (f : Env -> result A * Env) : silent (extern (E:=E) f).
Proof. intros e. unfold extern. by destruct (f e). Qed.

Lemma silent_is_dir {E} p : silent (is_dir (E:=E) p).
Proof. unfold is_dir. apply silent_bind; [done|]. intros a. apply silent_ret. Qed.

Lemma silent_os_mkdir {E} p : silent (os_mkdir (E:=E) p).
Proof.
  unfold os_mkdir. apply silent_bind; [done|]. intros a.
  destruct (fs a !! _); [done|]. by destruct (fs a !! _) as [[|c]|].
Qed.

(** Creating directories is silent. *)
Lemma silent_mkdir_fuel {E} fuel : forall p parents exist_ok,
  silent (mkdir_fuel (E:=E) fuel p parents exist_ok).
Proof.
  induction fuel as [|fuel IH]; intros p parents exist_ok;
    cbn [mkdir_fuel]; (apply silent_try_with; [apply silent_os_mkdir|]);
    intros x h Hx; destruct x; try discriminate; injection Hx as <-;
    try (apply silent_bind; [apply silent_is_dir|];
         intros d; by destruct (negb exist_ok || negb d)).
  - by destruct (negb parents || _).
  - destruct (negb parents || _); [done|].
    apply silent_bind; [apply IH|]. intros _. apply IH.
Qed.

Lemma silent_glob_file {E} d pat full : silent (glob_file (E:=E) d pat full).
Proof. unfold glob_file. apply silent_bind; [done|]. by intros a. Qed.

Lemma silent_set_filepath {E} self pcfile src nor exp :
  silent (set_filepath (E:=E) self pcfile src nor exp).
Proof.
  unfold set_filepath.
  repeat (apply silent_bind;
          [first [apply silent_lift | apply silent_mkdir_fuel]|]; intros ?).
  apply silent_ret.
Qed.

Lemma silent_resolve_stage self pcfile src nor exp :
  silent (resolve_stage self pcfile src nor exp).
Proof.
  unfold resolve_stage, call_method.
  apply silent_bind; [apply silent_lift|]. intros [v|k a]; [done|].
  destruct (bool_decide _); [apply silent_set_filepath|done].
Qed.

(** Running a sequence step by step. *)
Lemma bind_step {E A B} (m : M E A) (f : A -> M E B) e a e1 t1 r e2 t2 t :
  m e = Out (Ok a) e1 t1 ->
  f a e1 = Out r e2 t2 ->
  t = t1 ++ t2 ->
  (m ≫= f) e = Out r e2 t.
Proof.
  intros Hm Hf ->. unfold mbind, M_bind, bind. by rewrite Hm; cbn; rewrite Hf.
Qed.

Lemma timer_ok {E A} (func : M E A) e a e1 t :
  func e = Out (Ok a) e1 t ->
  timer func e = Out (Ok (now e1 - now e)%Q) e1 t.
Proof.
  intros H. unfold timer, time_time, mbind, M_bind, bind, get_env, ret.
  cbn [res env_of trace]. rewrite H. cbn [res env_of trace app].
  by rewrite app_nil_r.
Qed.

Lemma timer_raise {E A} (func : M E A) e x e1 t :
  func e = Out (Raise x) e1 t ->
  timer func e = Out (Raise x) e1 t.
Proof.
  intros H. unfold timer, time_time, mbind, M_bind, bind, get_env, ret.
  cbn [res env_of trace]. rewrite H. by cbn [res env_of trace app].
Qed.

(** A codec step as the pipeline sees it: the call is recorded, the
    events of the codec follow. *)
Lemma codec_step (mark : run_event) (m : M io_event unit) e r e1 t :
  m e = Out r e1 t ->
  (emit mark ≫= fun _ => relabel RunIO m) e
  = Out r e1 (mark :: List.map RunIO t).
Proof. intros H. unfold mbind, M_bind, bind, emit, relabel. cbn. by rewrite H. Qed.

(** ** Globbing by stem *)

Lemma glob_star name : glob_match "*" name = true.
Proof.
  induction name as [|c name IH]; [done|].
  cbn in *. exact IH.
Qed.

(** A pattern followed by a star matches every name that begins with
    the pattern's own text, whatever characters the text holds. *)
Lemma glob_match_prefix stem : forall name,
  String.prefix stem name = true -> glob_match (stem +:+ "*") name = true.
Proof.
  induction stem as [|c stem IH]; intros name Hp.
  - apply glob_star.
  - destruct name as [|d name]; [done|]. simpl in Hp.
    destruct (ascii_dec c d) as [->|]; [|done].
    change (String d stem +:+ "*") with (String d (stem +:+ "*")).
    cbn [glob_match]. destruct (Ascii.eqb d "*").
    + apply orb_true_iff. right. pose proof (IH name Hp) as Hm.
      destruct name; by rewrite Hm.
    + rewrite Ascii.eqb_refl, orb_true_r. by apply IH.
Qed.

Lemma glob_file_out {E} d pat full e :
  glob_file (E:=E) d pat full e = Out (Ok (glob_list e d pat full)) e [].
Proof. reflexivity. Qed.

(** Every entry of the directory whose name begins with [stem] is in
    the list a glob for [stem*] returns. *)
Lemma glob_list_complete e d stem k w :
  is_Some (fs e !! k) ->
  child_name (Path.resolve (cwd e) d) k = Some w ->
  String.prefix stem w = true ->
  d ++ [w] ∈ glob_list e d (stem +:+ "*") true.
Proof.
  intros [n Hk] Hw Hp. unfold glob_list.
  apply list_elem_of_In, in_map_iff. exists w. split; [done|].
  apply list_elem_of_In, list_elem_of_omap. exists (k, n). split.
  - by apply elem_of_map_to_list.
  - cbn [fst]. rewrite Hw. by rewrite glob_match_prefix.
Qed.

(** ** [Base.run], stage by stage *)

Section PipelineFacts.

Context {codec : Codec}.
Variable evaluate : eval_args -> Env -> result string * Env.

Implicit Types (self : object) (p : job_paths) (e : Env).

Lemma Base_run_stages self pcfile src nor exp color resolution :
  Base_run evaluate self pcfile src nor exp color resolution
  = resolve_stage (job_self self color resolution) pcfile src nor exp
    ≫= after_resolve evaluate (job_self self color resolution) color resolution.
Proof. reflexivity. Qed.

Lemma resolve_stage_out self pcfile src nor exp e r e1 t1 :
  resolve_stage self pcfile src nor exp e = Out r e1 t1 -> t1 = [].
Proof.
  intros H. pose proof (silent_resolve_stage self pcfile src nor exp e) as Hs.
  by rewrite H in Hs.
Qed.

Lemma run_resolve_fails self pcfile src nor exp color resolution e x e1 t1 :
  resolve_stage (job_self self color resolution) pcfile src nor exp e
  = Out (Raise x) e1 t1 ->
  Base_run evaluate self pcfile src nor exp color resolution e
  = Out (Raise x) e1 [].
Proof.
  intros H. rewrite Base_run_stages.
  pose proof (resolve_stage_out _ _ _ _ _ _ _ _ _ H) as ->.
  by apply bind_raise.
Qed.

Lemma run_encode_fails self pcfile src nor exp color resolution
    e p e1 t1 x e2 t2 :
  resolve_stage (job_self self color resolution) pcfile src nor exp e
  = Out (Ok p) e1 t1 ->
  encode_step (job_self self color resolution) p e1 = Out (Raise x) e2 t2 ->
  Base_run evaluate self pcfile src nor exp color resolution e
  = Out (Raise x) e2 (encode_mark p :: List.map RunIO t2).
Proof.
  intros Hp Henc. rewrite Base_run_stages.
  pose proof (resolve_stage_out _ _ _ _ _ _ _ _ _ Hp) as ->.
  eapply bind_step; [exact Hp| |reflexivity].
  unfold after_resolve. apply bind_raise, timer_raise, codec_step, Henc.
Qed.

Lemma run_decode_fails self pcfile src nor exp color resolution
    e p e1 t1 e2 t2 x e3 t3 :
  resolve_stage (job_self self color resolution) pcfile src nor exp e
  = Out (Ok p) e1 t1 ->
  encode_step (job_self self color resolution) p e1 = Out (Ok tt) e2 t2 ->
  decode_step (job_self self color resolution) p e2 = Out (Raise x) e3 t3 ->
  Base_run evaluate self pcfile src nor exp color resolution e
  = Out (Raise x) e3
      ((encode_mark p :: List.map RunIO t2)
       ++ decode_mark p :: List.map RunIO t3).
Proof.
  intros Hp Henc Hdec. rewrite Base_run_stages.
  pose proof (resolve_stage_out _ _ _ _ _ _ _ _ _ Hp) as ->.
  eapply bind_step; [exact Hp| |reflexivity].
  unfold after_resolve.
  eapply bind_step; [eapply timer_ok, codec_step, Henc| |reflexivity].
  apply bind_raise, timer_raise, codec_step, Hdec.
Qed.

Lemma open_write_trace f c e :
  log_writes (trace (open_write f c e)) = [] \/
  exists q, trace (open_write f c e) = [RunWrite q c].
Proof.
  unfold open_write, mbind, M_bind, bind, get_env. cbn [res env_of trace].
  set (q := Path.resolve (cwd e) f).
  destruct (fs e !! q) as [[|c']|]; cbn [app]; [by left|..];
    destruct (fs e !! removelast q) as [[|c'']|]; cbn; eauto.
Qed.

Lemma report_stage_trace args p e :
  evaluations (trace (report_stage evaluate args p e)) = [args] /\
  encode_calls (trace (report_stage evaluate args p e)) = [] /\
  decode_calls (trace (report_stage evaluate args p e)) = [].
Proof.
  unfold report_stage. rewrite bind_emit. cbn [trace].
  unfold mbind, M_bind, bind, extern.
  destruct (evaluate args e) as [[report|x] e']; cbn [res env_of trace app];
    [|done].
  destruct (open_write_trace (evl_log p) report e') as [H|[q H]].
  - unfold open_write, mbind, M_bind, bind, get_env in *.
    cbn [res env_of trace] in *.
    destruct (fs e' !! Path.resolve (cwd e') (evl_log p)) as [[|c']|];
      [done|..];
      by destruct (fs e' !! removelast _) as [[|c'']|].
  - by rewrite H.
Qed.

Lemma run_codec_done self pcfile src nor exp color resolution
    e p e1 t1 e2 t2 e3 t3 :
  resolve_stage (job_self self color resolution) pcfile src nor exp e
  = Out (Ok p) e1 t1 ->
  encode_step (job_self self color resolution) p e1 = Out (Ok tt) e2 t2 ->
  decode_step (job_self self color resolution) p e2 = Out (Ok tt) e3 t3 ->
  let args :=
    EvalArgs (nor_pcfile p) (out_pcfile p) color resolution
      (now e2 - now e1)%Q (now e3 - now e2)%Q
      (glob_list e3 (Path.parent (bin_file p))
         (Path.stem (bin_file p) +:+ "*") true) in
  let o := report_stage evaluate args p e3 in
  Base_run evaluate self pcfile src nor exp color resolution e
  = Out (res o) (env_of o)
      ((encode_mark p :: List.map RunIO t2)
       ++ (decode_mark p :: List.map RunIO t3) ++ trace o).
Proof.
  intros Hp Henc Hdec args o. rewrite Base_run_stages.
  pose proof (resolve_stage_out _ _ _ _ _ _ _ _ _ Hp) as ->.
  eapply bind_step; [exact Hp| |reflexivity].
  unfold after_resolve.
  eapply bind_step; [eapply timer_ok, codec_step, Henc| |reflexivity].
  eapply bind_step; [eapply timer_ok, codec_step, Hdec| |reflexivity].
  eapply bind_step; [apply glob_file_out| |reflexivity].
  symmetry. apply out_eta.
Qed.

End PipelineFacts.

(** Reading the steps off a trace. *)
Lemma encode_calls_cons ev t :
  encode_calls (ev :: t)
  = match ev with RunEncode a b => [(a, b)] | _ => [] end ++ encode_calls t.
Proof. by destruct ev. Qed.

Lemma decode_calls_cons ev t :
  decode_calls (ev :: t)
  = match ev with RunDecode a b => [(a, b)] | _ => [] end ++ decode_calls t.
Proof. by destruct ev. Qed.

Lemma evaluations_cons ev t :
  evaluations (ev :: t)
  = match ev with RunEvaluate a => [a] | _ => [] end ++ evaluations t.
Proof. by destruct ev. Qed.

Lemma log_writes_cons ev t :
  log_writes (ev :: t)
  = match ev with RunWrite f c => [(f, c)] | _ => [] end ++ log_writes t.
Proof. by destruct ev. Qed.

Ltac read_steps :=
  unfold encode_mark, decode_mark;
  repeat first
    [ rewrite encode_calls_cons | rewrite decode_calls_cons
    | rewrite evaluations_cons | rewrite log_writes_cons
    | rewrite encode_calls_app | rewrite decode_calls_app
    | rewrite evaluations_app | rewrite log_writes_app ];
  cbn [app].

(** C2: a job whose paths are resolved and whose encode step then fails
    ends there.  [run] raises the error of [encode]; [encode] was called
    once and [decode] never; the metrics are not evaluated and no log
    file is written: the environment is the one [encode] left. *)
Theorem run_stops_at_failed_encode `{codec : Codec}
    (evaluate : eval_args -> Env -> result string * Env)
    (self : object) (pcfile src_dir nor_dir exp_dir : Path.t)
    (color resolution : value) (e e1 e2 : Env) (p : job_paths) (x : exn)
    (t1 : list run_event) (t2 : list io_event) :
  resolve_stage (job_self self color resolution) pcfile src_dir nor_dir exp_dir e
  = Out (Ok p) e1 t1 ->
  encode_step (job_self self color resolution) p e1 = Out (Raise x) e2 t2 ->
  let o := Base_run evaluate self pcfile src_dir nor_dir exp_dir
             color resolution e in
  res o = Raise x /\
  env_of o = e2 /\
  encode_calls (trace o)
  = [(Path.to_string (in_pcfile p), Path.to_string (bin_file p))] /\
  decode_calls (trace o) = [] /\
  evaluations (trace o) = [] /\
  log_writes (trace o) = [].
Proof.
  intros Hp Henc o. subst o.
  rewrite (run_encode_fails evaluate _ _ _ _ _ _ _ _ _ _ _ _ _ _ Hp Henc).
  cbn [res env_of trace]. destruct (io_is_no_step t2) as (He & Hd & Hv & Hw).
  read_steps. by rewrite He, Hd, Hv, Hw.
Qed.

(** C6: a job whose encode step succeeds and whose decode step fails
    ends at the decode step.  [run] raises the error of [decode], which
    was called exactly once; the metrics are never evaluated and no log
    file is written: the environment is the one [decode] left. *)
Theorem run_stops_at_failed_decode `{codec : Codec}
    (evaluate : eval_args -> Env -> result string * Env)
    (self : object) (pcfile src_dir nor_dir exp_dir : Path.t)
    (color resolution : value) (e e1 e2 e3 : Env) (p : job_paths) (x : exn)
    (t1 : list run_event) (t2 t3 : list io_event) :
  resolve_stage (job_self self color resolution) pcfile src_dir nor_dir exp_dir e
  = Out (Ok p) e1 t1 ->
  encode_step (job_self self color resolution) p e1 = Out (Ok tt) e2 t2 ->
  decode_step (job_self self color resolution) p e2 = Out (Raise x) e3 t3 ->
  let o := Base_run evaluate self pcfile src_dir nor_dir exp_dir
             color resolution e in
  res o = Raise x /\
  env_of o = e3 /\
  decode_calls (trace o)
  = [(Path.to_string (bin_file p), Path.to_string (out_pcfile p))] /\
  evaluations (trace o) = [] /\
  log_writes (trace o) = [].
Proof.
  intros Hp Henc Hdec o. subst o.
  rewrite (run_decode_fails evaluate _ _ _ _ _ _ _ _ _ _ _ _ _ _ _ _
             Hp Henc Hdec).
  cbn [res env_of trace].
  destruct (io_is_no_step t2) as (_ & Hd2 & Hv2 & Hw2).
  destruct (io_is_no_step t3) as (_ & Hd3 & Hv3 & Hw3).
  read_steps. by rewrite Hd2, Hv2, Hw2, Hd3, Hv3, Hw3.
Qed.

(** C7: when a job succeeds, the metrics were evaluated once, and the
    list of artifact files they were given holds every entry of the
    directory of the compressed artifact whose name begins with the
    artifact's stem, as the directory was when [decode] returned. *)
Theorem run_collects_artifact_set `{codec : Codec}
    (evaluate : eval_args -> Env -> result string * Env)
    (self : object) (pcfile src_dir nor_dir exp_dir : Path.t)
    (color resolution : value) (e : Env) :
  let self' := job_self self color resolution in
  let o := Base_run evaluate self pcfile src_dir nor_dir exp_dir
             color resolution e in
  res o = Ok tt ->
  exists p e1 e2 t2 e3 t3 args,
    resolve_stage self' pcfile src_dir nor_dir exp_dir e = Out (Ok p) e1 [] /\
    encode_step self' p e1 = Out (Ok tt) e2 t2 /\
    decode_step self' p e2 = Out (Ok tt) e3 t3 /\
    evaluations (trace o) = [args] /\
    forall k w,
      is_Some (fs e3 !! k) ->
      child_name (Path.resolve (cwd e3) (Path.parent (bin_file p))) k = Some w ->
      String.prefix (Path.stem (bin_file p)) w = true ->
      Path.parent (bin_file p) ++ [w] ∈ ea_bin_files args.
Proof.
  intros self' o Hok. subst o.
  destruct (resolve_stage self' pcfile src_dir nor_dir exp_dir e)
    as [[p|x] e1 t1] eqn:Hp.
  2: { rewrite (run_resolve_fails evaluate _ _ _ _ _ _ _ _ _ _ _ Hp) in Hok.
       discriminate Hok. }
  pose proof (resolve_stage_out _ _ _ _ _ _ _ _ _ Hp) as ->.
  destruct (encode_step self' p e1) as [[[]|x] e2 t2] eqn:Henc.
  2: { rewrite (run_encode_fails evaluate _ _ _ _ _ _ _ _ _ _ _ _ _ _
                  Hp Henc) in Hok.
       discriminate Hok. }
  destruct (decode_step self' p e2) as [[[]|x] e3 t3] eqn:Hdec.
  2: { rewrite (run_decode_fails evaluate _ _ _ _ _ _ _ _ _ _ _ _ _ _ _ _
                  Hp Henc Hdec) in Hok.
       discriminate Hok. }
  eexists p, e1, e2, t2, e3, t3, _.
  split; [done|]. split; [done|]. split; [done|].
  rewrite (run_codec_done evaluate _ _ _ _ _ _ _ _ _ _ _ _ _ _ _
             Hp Henc Hdec).
  cbn [trace].
  destruct (io_is_no_step t2) as (_ & _ & Hv2 & _).
  destruct (io_is_no_step t3) as (_ & _ & Hv3 & _).
  split.
  - read_steps. rewrite Hv2, Hv3. cbn [app].
    apply report_stage_trace.
  - cbn [ea_bin_files]. intros k w Hk Hw Hpre.
    by apply (glob_list_complete e3 _ _ k w).
Qed.

Lemma run_stops_at_failed_encode_witness :
  let o := scenario_run (Scenario.stub false true) Scenario.world in
  res o = Raise AssertionError /\
  decode_calls (trace o) = [] /\
  log_writes (trace o) = [] /\
  fs (env_of o) !! ["/"; "exp"; "r1"; "evl"; "cube.log"] = None.
Proof.
  cbn zeta.
  edestruct (@run_stops_at_failed_encode (Scenario.stub false true)
               Scenario.evaluate (Scenario.plugin GPCC)
               (Path.of_string "cube.ply") (Path.of_string "/data/src")
               (Path.of_string "/data/nor")
               (Path.joinpath (Path.of_string "/exp") (Path.of_string "r1"))
               (VInt 0) VNone Scenario.world)
    as (Hres & Henv & _ & Hdec & _ & Hlog).
  - vm_compute. reflexivity.
  - vm_compute. reflexivity.
  - split; [exact Hres|]. split; [exact Hdec|]. split; [exact Hlog|].
    unfold scenario_run. rewrite Henv. vm_compute. reflexivity.
Defined.

Lemma run_stops_at_failed_decode_witness :
  let o := scenario_run (Scenario.stub true false) Scenario.world in
  res o = Raise AssertionError /\
  decode_calls (trace o) = [("/exp/r1/bin/cube.bin", "/exp/r1/dec/cube.ply")] /\
  evaluations (trace o) = [] /\
  log_writes (trace o) = [].
Proof.
  cbn zeta.
  edestruct (@run_stops_at_failed_decode (Scenario.stub true false)
               Scenario.evaluate (Scenario.plugin GPCC)
               (Path.of_string "cube.ply") (Path.of_string "/data/src")
               (Path.of_string "/data/nor")
               (Path.joinpath (Path.of_string "/exp") (Path.of_string "r1"))
               (VInt 0) VNone Scenario.world)
    as (Hres & _ & Hdec & Hev & Hlog).
  - vm_compute. reflexivity.
  - vm_compute. reflexivity.
  - vm_compute. reflexivity.
  - split; [exact Hres|]. split; [exact Hdec|]. split; [exact Hev|exact Hlog].
Defined.

Lemma run_collects_artifact_set_witness :
  exists args,
    evaluations (trace (scenario_run (Scenario.stub true true) Scenario.world))
    = [args] /\
    ["/"; "exp"; "r1"; "bin"; "cube.bin"] ∈ ea_bin_files args.
Proof.
  destruct (@run_collects_artifact_set (Scenario.stub true true)
              Scenario.evaluate (Scenario.plugin GPCC)
              (Path.of_string "cube.ply") (Path.of_string "/data/src")
              (Path.of_string "/data/nor")
              (Path.joinpath (Path.of_string "/exp") (Path.of_string "r1"))
              (VInt 0) VNone Scenario.world eq_refl)
    as (p & e1 & e2 & t2 & e3 & t3 & args & Hp & Henc & Hdec & Hev & Hall).
  exists args. split; [exact Hev|].
  vm_compute in Hp. injection Hp as <- <-.
  vm_compute in Henc. injection Henc as <- <-.
  vm_compute in Hdec. injection Hdec as <- <-.
  apply (Hall ["/"; "exp"; "r1"; "bin"; "cube.bin"] "cube.bin").
  - vm_compute. eauto.
  - vm_compute. reflexivity.
  - vm_compute. reflexivity.
Defined.

(** ** Creating the output directories *)

Lemma grows_refl e : grows e e.
Proof. repeat split; intros; by left. Qed.

Lemma grows_trans e1 e2 e3 : grows e1 e2 -> grows e2 e3 -> grows e1 e3.
Proof.
  intros (Hc1 & Hn1 & H1) (Hc2 & Hn2 & H2).
  split; [congruence|]. split; [congruence|]. intros q.
  destruct (H1 q) as [Ha|[Ha Hb]], (H2 q) as [Hc|[Hc Hd]].
  - left. congruence.
  - right. split; congruence.
  - right. split; congruence.
  - congruence.
Qed.

Lemma grows_keeps_dir e e' q :
  grows e e' -> fs e !! q = Some Dir -> fs e' !! q = Some Dir.
Proof. intros (_ & _ & H) Hq. destruct (H q) as [->|[? ?]]; congruence. Qed.

Lemma grows_clear_way e e' ws :
  grows e e' -> clear_way e ws -> clear_way e' ws.
Proof.
  intros Hg [Hroot Hway]. split; [by eapply grows_keeps_dir|].
  intros n. destruct Hg as (_ & _ & Hg).
  destruct (Hg ("/" :: take n ws)) as [->|[_ ->]]; [apply Hway | by right].
Qed.

Lemma fold_step_plain ws : forall acc,
  Forall (fun w => w <> "..") ws -> fold_left Path.step ws acc = acc ++ ws.
Proof.
  induction ws as [|w ws IH]; intros acc Hws; cbn [fold_left].
  - by rewrite app_nil_r.
  - inversion Hws as [|? ? Hw Hws']; subst.
    unfold Path.step at 2. apply String.eqb_neq in Hw. rewrite Hw.
    rewrite IH by done. by rewrite <- app_assoc.
Qed.

(** An absolute path without dot-dot resolves to itself. *)
Lemma resolve_plain wd ws :
  Forall (fun w => w <> "..") ws -> Path.resolve wd ("/" :: ws) = "/" :: ws.
Proof. intros H. cbn. by rewrite fold_step_plain. Qed.

Lemma mkdir_fuel_there {E} fuel p parents e :
  fs e !! Path.resolve (cwd e) p = Some Dir ->
  mkdir_fuel (E:=E) fuel p parents true e = Out (Ok tt) e [].
Proof.
  intros H.
  assert (Hos : os_mkdir (E:=E) p e = Out (Raise FileExistsError) e []).
  { unfold os_mkdir, mbind, M_bind, bind, get_env. cbn [res env_of trace].
    by rewrite H. }
  assert (Hd : is_dir (E:=E) p e = Out (Ok true) e []).
  { unfold is_dir, mbind, M_bind, bind, get_env, ret. cbn [res env_of trace].
    by rewrite H. }
  destruct fuel; cbn [mkdir_fuel]; unfold try_with; rewrite Hos;
    cbn [res env_of trace]; unfold mbind, M_bind, bind; rewrite Hd; done.
Qed.

Lemma mkdir_fuel_made {E} fuel p parents exist_ok e :
  fs e !! Path.resolve (cwd e) p = None ->
  fs e !! removelast (Path.resolve (cwd e) p) = Some Dir ->
  mkdir_fuel (E:=E) fuel p parents exist_ok e
  = Out (Ok tt) (set_fs e (<[Path.resolve (cwd e) p := Dir]> (fs e))) [].
Proof.
  intros Hp Hpar.
  assert (Hos : os_mkdir (E:=E) p e
                = Out (Ok tt)
                    (set_fs e (<[Path.resolve (cwd e) p := Dir]> (fs e))) []).
  { unfold os_mkdir, mbind, M_bind, bind, get_env. cbn [res env_of trace].
    by rewrite Hp, Hpar. }
  destruct fuel; cbn [mkdir_fuel]; unfold try_with; by rewrite Hos.
Qed.

Lemma grows_insert e q :
  fs e !! q = None -> grows e (set_fs e (<[q := Dir]> (fs e))).
Proof.
  intros Hq. split; [done|]. split; [done|]. intros k. cbn.
  destruct (decide (q = k)) as [<-|Hne].
  - right. by rewrite lookup_insert_eq.
  - left. by rewrite lookup_insert_ne.
Qed.

Lemma os_mkdir_no_parent {E} p e :
  fs e !! Path.resolve (cwd e) p = None ->
  fs e !! removelast (Path.resolve (cwd e) p) = None ->
  os_mkdir (E:=E) p e = Out (Raise FileNotFoundError) e [].
Proof.
  intros Hp Hpar. unfold os_mkdir, mbind, M_bind, bind, get_env.
  cbn [res env_of trace]. by rewrite Hp, Hpar.
Qed.

(** [mkdir(parents=True, exist_ok=True)] on an absolute path whose way
    is clear: it returns, the directory is there afterwards, and the
    file system has only grown, by entries no longer than the path. *)
Lemma mkdir_parents_ok {E} ws : forall fuel e,
  length ws <= fuel ->
  Forall (fun w => w <> "..") ws ->
  clear_way e ws ->
  exists e',
    mkdir_fuel (E:=E) fuel ("/" :: ws) true true e = Out (Ok tt) e' [] /\
    grows e e' /\
    fs e' !! ("/" :: ws) = Some Dir /\
    forall q, S (length ws) < length q -> fs e' !! q = fs e !! q.
Proof.
  induction ws as [|w ws IH] using rev_ind; intros fuel e Hfuel Hplain Hway.
  - destruct Hway as [Hroot _]. exists e.
    split; [|split; [apply grows_refl|done]].
    apply mkdir_fuel_there. by rewrite resolve_plain.
  - pose proof Hway as [Hroot Hpre].
    apply Forall_app in Hplain as [Hplain' Hw].
    assert (Hres : Path.resolve (cwd e) ("/" :: ws ++ [w]) = "/" :: ws ++ [w]).
    { apply resolve_plain. apply Forall_app. by split. }
    assert (Hrm : removelast ("/" :: ws ++ [w]) = "/" :: ws).
    { change ("/" :: ws ++ [w]) with (("/" :: ws) ++ [w]).
      apply removelast_last. }
    assert (Hway' : clear_way e ws).
    { split; [done|]. intros n.
      destruct (decide (n <= length ws)) as [Hn|Hn].
      - specialize (Hpre n). by rewrite take_app_le in Hpre.
      - specialize (Hpre (length ws)).
        rewrite take_app_le, firstn_all in Hpre by done.
        rewrite take_ge by lia. done. }
    pose proof (Hpre (length (ws ++ [w]))) as Hend.
    rewrite firstn_all in Hend. destruct Hend as [Hnone|Hdir].
    2: { exists e. split; [|split; [apply grows_refl|done]].
         apply mkdir_fuel_there. by rewrite Hres. }
    destruct (fs e !! ("/" :: ws)) as [[|c]|] eqn:Hpar.
    + eexists. split; [|split; [|split]].
      * apply mkdir_fuel_made; rewrite Hres; [done|]. by rewrite Hrm.
      * rewrite Hres. by apply grows_insert.
      * rewrite Hres. unfold set_fs. cbn [fs]. by rewrite lookup_insert_eq.
      * intros q Hq. rewrite Hres. unfold set_fs. cbn [fs].
        apply lookup_insert_ne. intros <-. cbn in Hq. lia.
    + destruct (Hpre (length ws)) as [H|H];
        rewrite take_app_le, firstn_all in H by done; congruence.
    + rewrite length_app in Hfuel. cbn in Hfuel.
      destruct fuel as [|fuel]; [lia|].
      destruct (IH fuel e ltac:(lia) Hplain' Hway')
        as (e1 & Hmk & Hg & Hd & Hlong).
      assert (Hnone1 : fs e1 !! ("/" :: ws ++ [w]) = None).
      { rewrite Hlong; [done|]. cbn. rewrite length_app. cbn. lia. }
      assert (Hcwd : cwd e1 = cwd e) by apply Hg.
      assert (Hres1 :
        Path.resolve (cwd e1) ("/" :: ws ++ [w]) = "/" :: ws ++ [w]).
      { by rewrite Hcwd. }
      eexists. split; [|split; [|split]].
      * cbn [mkdir_fuel]. unfold try_with.
        rewrite os_mkdir_no_parent by (rewrite Hres; by rewrite ?Hrm).
        cbn [res env_of trace negb orb].
        replace (path_eqb (Path.parent ("/" :: ws ++ [w])) ("/" :: ws ++ [w]))
          with false.
        2: { symmetry. apply bool_decide_eq_false. cbn.
             rewrite removelast_last. intros H. injection H as H.
             apply (f_equal length) in H. rewrite length_app in H.
             cbn in H. lia. }
        replace (Path.parent ("/" :: ws ++ [w])) with ("/" :: ws)
          by (cbn; by rewrite removelast_last).
        erewrite bind_step; [|exact Hmk| |reflexivity].
        2: { apply mkdir_fuel_made; rewrite Hres1; [done|]. by rewrite Hrm. }
        reflexivity.
      * rewrite Hres1. eapply grows_trans; [exact Hg|].
        by apply grows_insert.
      * rewrite Hres1. unfold set_fs. cbn [fs env_of].
        by rewrite lookup_insert_eq.
      * intros q Hq. rewrite Hres1. unfold set_fs. cbn [fs env_of].
        rewrite lookup_insert_ne.
        -- apply Hlong. rewrite length_app in Hq. cbn in Hq. lia.
        -- intros <-. cbn in Hq. lia.
Qed.

Lemma grows_clear_ways e e' :
  grows e e' ->
  clear_way e ["exp"; "r1"; "bin"] /\ clear_way e ["exp"; "r1"; "dec"] /\
  clear_way e ["exp"; "r1"; "evl"] ->
  clear_way e' ["exp"; "r1"; "bin"] /\ clear_way e' ["exp"; "r1"; "dec"] /\
  clear_way e' ["exp"; "r1"; "evl"].
Proof. intros Hg (H1 & H2 & H3). repeat split; by eapply grows_clear_way. Qed.

Lemma plain_scenario_dirs :
  Forall (fun w => w <> "..") ["exp"; "r1"; "bin"] /\
  Forall (fun w => w <> "..") ["exp"; "r1"; "dec"] /\
  Forall (fun w => w <> "..") ["exp"; "r1"; "evl"].
Proof. repeat split; repeat constructor; discriminate. Qed.

(** Path resolution in the scenario, on any file system whose way to
    the three directories is clear. *)
Lemma set_filepath_cube {E} self cfg nor_dir e :
  get_data self "_algs_cfg" = Ok cfg ->
  subscript cfg "bin_suffix" = Ok (VStr ".bin") ->
  clear_way e ["exp"; "r1"; "bin"] /\ clear_way e ["exp"; "r1"; "dec"] /\
  clear_way e ["exp"; "r1"; "evl"] ->
  exists e',
    set_filepath (E:=E) self (Path.of_string "cube.ply")
      (Path.of_string "/data/src") nor_dir
      (Path.joinpath (Path.of_string "/exp") (Path.of_string "r1")) e
    = Out (Ok (cube_paths nor_dir)) e' [] /\
    grows e e' /\
    fs e' !! ["/"; "exp"; "r1"; "bin"] = Some Dir /\
    fs e' !! ["/"; "exp"; "r1"; "dec"] = Some Dir /\
    fs e' !! ["/"; "exp"; "r1"; "evl"] = Some Dir.
Proof.
  intros Hcfg Hsfx (Hbin & Hdec & Hevl).
  destruct plain_scenario_dirs as (Pbin & Pdec & Pevl).
  destruct (mkdir_parents_ok (E:=E) ["exp"; "r1"; "bin"] 5 e
              ltac:(cbn; lia) Pbin Hbin) as (e1 & M1 & G1 & D1 & _).
  destruct (mkdir_parents_ok (E:=E) ["exp"; "r1"; "dec"] 5 e1
              ltac:(cbn; lia) Pdec (grows_clear_way _ _ _ G1 Hdec))
    as (e2 & M2 & G2 & D2 & _).
  destruct (mkdir_parents_ok (E:=E) ["exp"; "r1"; "evl"] 5 e2
              ltac:(cbn; lia) Pevl
              (grows_clear_way _ _ _ G2 (grows_clear_way _ _ _ G1 Hevl)))
    as (e3 & M3 & G3 & D3 & _).
  exists e3. split; [|split; [|split; [|split]]].
  - unfold set_filepath. rewrite Hcfg, bind_lift_ok, Hsfx, bind_lift_ok.
    cbn [as_str]. rewrite bind_lift_ok.
    change (Path.with_suffix _ ".bin")
      with (Ok (A:=Path.t) ["/"; "exp"; "r1"; "bin"; "cube.bin"]).
    rewrite bind_lift_ok.
    change (Path.with_suffix _ ".log")
      with (Ok (A:=Path.t) ["/"; "exp"; "r1"; "evl"; "cube.log"]).
    rewrite bind_lift_ok.
    eapply bind_step; [exact M1| |reflexivity].
    eapply bind_step; [exact M2| |reflexivity].
    eapply bind_step; [exact M3| |reflexivity].
    reflexivity.
  - eapply grows_trans; [|exact G3]. eapply grows_trans; [exact G1|exact G2].
  - eapply grows_keeps_dir; [exact G3|]. eapply grows_keeps_dir; [exact G2|].
    exact D1.
  - eapply grows_keeps_dir; [exact G3|]. exact D2.
  - exact D3.
Qed.

(** Directories that are there already are left alone. *)
Lemma set_filepath_cube_again {E} self cfg nor_dir e :
  get_data self "_algs_cfg" = Ok cfg ->
  subscript cfg "bin_suffix" = Ok (VStr ".bin") ->
  fs e !! ["/"; "exp"; "r1"; "bin"] = Some Dir ->
  fs e !! ["/"; "exp"; "r1"; "dec"] = Some Dir ->
  fs e !! ["/"; "exp"; "r1"; "evl"] = Some Dir ->
  set_filepath (E:=E) self (Path.of_string "cube.ply")
    (Path.of_string "/data/src") nor_dir
    (Path.joinpath (Path.of_string "/exp") (Path.of_string "r1")) e
  = Out (Ok (cube_paths nor_dir)) e [].
Proof.
  intros Hcfg Hsfx D1 D2 D3.
  destruct plain_scenario_dirs as (Pbin & Pdec & Pevl).
  unfold set_filepath. rewrite Hcfg, bind_lift_ok, Hsfx, bind_lift_ok.
  cbn [as_str]. rewrite bind_lift_ok.
  change (Path.with_suffix _ ".bin")
    with (Ok (A:=Path.t) ["/"; "exp"; "r1"; "bin"; "cube.bin"]).
  rewrite bind_lift_ok.
  change (Path.with_suffix _ ".log")
    with (Ok (A:=Path.t) ["/"; "exp"; "r1"; "evl"; "cube.log"]).
  rewrite bind_lift_ok.
  assert (M1 : mkdir_fuel (E:=E) 5 ["/"; "exp"; "r1"; "bin"] true true e
               = Out (Ok tt) e []).
  { apply mkdir_fuel_there. by rewrite (resolve_plain _ _ Pbin). }
  assert (M2 : mkdir_fuel (E:=E) 5 ["/"; "exp"; "r1"; "dec"] true true e
               = Out (Ok tt) e []).
  { apply mkdir_fuel_there. by rewrite (resolve_plain _ _ Pdec). }
  assert (M3 : mkdir_fuel (E:=E) 5 ["/"; "exp"; "r1"; "evl"] true true e
               = Out (Ok tt) e []).
  { apply mkdir_fuel_there. by rewrite (resolve_plain _ _ Pevl). }
  eapply bind_step; [exact M1| |reflexivity].
  eapply bind_step; [exact M2| |reflexivity].
  eapply bind_step; [exact M3| |reflexivity].
  reflexivity.
Qed.

(** C8: for item [cube.ply], source directory [/data/src], experiment
    root [/exp], rate tag [r1] and suffix [.bin], on every file system
    with no regular file in the way, path resolution returns
    [/data/src/cube.ply], [/exp/r1/bin/cube.bin], [/exp/r1/dec/cube.ply]
    and [/exp/r1/evl/cube.log]; afterwards the three parent directories
    exist and nothing that was there has changed, and resolving again,
    with the directories there, gives the same paths and changes
    nothing.  The segment [r1] comes from [run_dataset]: run on the
    root [/exp] with rate [r1] assigned, it encodes, decodes and logs
    under [/exp/r1]. *)
Theorem path_resolution_scenario {E : Type} (self : object) (cfg : value)
    (nor_dir : Path.t) (e : Env) :
  get_data self "_algs_cfg" = Ok cfg ->
  subscript cfg "bin_suffix" = Ok (VStr ".bin") ->
  clear_way e ["exp"; "r1"; "bin"] /\ clear_way e ["exp"; "r1"; "dec"] /\
  clear_way e ["exp"; "r1"; "evl"] ->
  let exp_dir := Path.joinpath (Path.of_string "/exp") (Path.of_string "r1") in
  let resolve :=
    set_filepath (E:=E) self (Path.of_string "cube.ply")
      (Path.of_string "/data/src") nor_dir exp_dir in
  (exists p e',
     resolve e = Out (Ok p) e' [] /\
     Path.to_string (in_pcfile p) = "/data/src/cube.ply" /\
     Path.to_string (bin_file p) = "/exp/r1/bin/cube.bin" /\
     Path.to_string (out_pcfile p) = "/exp/r1/dec/cube.ply" /\
     Path.to_string (evl_log p) = "/exp/r1/evl/cube.log" /\
     grows e e' /\
     fs e' !! Path.parent (bin_file p) = Some Dir /\
     fs e' !! Path.parent (out_pcfile p) = Some Dir /\
     fs e' !! Path.parent (evl_log p) = Some Dir /\
     resolve e' = Out (Ok p) e' []) /\
  Path.to_string exp_dir = "/exp/r1" /\
  res scenario_dataset = Ok tt /\
  tasks_of (trace scenario_dataset) = [["cube.ply"]] /\
  encode_calls (jobs_of (trace scenario_dataset))
  = [("/data/src/cube.ply", "/exp/r1/bin/cube.bin")] /\
  decode_calls (jobs_of (trace scenario_dataset))
  = [("/exp/r1/bin/cube.bin", "/exp/r1/dec/cube.ply")] /\
  log_writes (jobs_of (trace scenario_dataset))
  = [(["/"; "exp"; "r1"; "evl"; "cube.log"], "report")].
Proof.
  intros Hcfg Hsfx Hway exp_dir resolve. split.
  - destruct (set_filepath_cube (E:=E) self cfg nor_dir e Hcfg Hsfx Hway)
      as (e' & Hrun & Hg & D1 & D2 & D3).
    exists (cube_paths nor_dir), e'. subst resolve exp_dir.
    split; [exact Hrun|]. repeat (split; [done|]).
    apply set_filepath_cube_again with cfg; done.
  - repeat split; vm_compute; reflexivity.
Qed.

Lemma clear_way_scenario :
  clear_way Scenario.world ["exp"; "r1"; "bin"] /\
  clear_way Scenario.world ["exp"; "r1"; "dec"] /\
  clear_way Scenario.world ["exp"; "r1"; "evl"].
Proof.
  repeat split; try reflexivity;
    intros [|[|[|[|n]]]];
    first [right; vm_compute; reflexivity | left; vm_compute; reflexivity].
Qed.

Lemma path_resolution_scenario_witness :
  exists e',
    set_filepath (E:=run_event) (Scenario.plugin GPCC)
      (Path.of_string "cube.ply") (Path.of_string "/data/src")
      (Path.of_string "/data/nor")
      (Path.joinpath (Path.of_string "/exp") (Path.of_string "r1"))
      Scenario.world
    = Out (Ok (cube_paths ["/"; "data"; "nor"])) e' [] /\
    fs Scenario.world !! ["/"; "exp"; "r1"; "bin"] = None /\
    fs e' !! ["/"; "exp"; "r1"; "bin"] = Some Dir.
Proof.
  destruct (path_resolution_scenario (E:=run_event) (Scenario.plugin GPCC)
              Scenario.algs_cfg (Path.of_string "/data/nor") Scenario.world
              eq_refl eq_refl clear_way_scenario)
    as [(p & e' & Hrun & _ & _ & _ & _ & _ & Hbin & _) _].
  exists e'.
  assert (Hp : p = cube_paths ["/"; "data"; "nor"]).
  { vm_compute in Hrun. by injection Hrun as <- _. }
  subst p. split; [exact Hrun|]. split; [reflexivity|exact Hbin].
Defined.

(** ** The code at work on the scenario *)

(** A [GPCC] encoder that exits nonzero: [execute_cmd] gives [False],
    the [assert] of [encode] raises, and the job ends before decoding. *)
Example gpcc_encoder_exits_nonzero :
  let o := gpcc_run "false" "true" Scenario.world in
  res o = Raise AssertionError /\
  decode_calls (trace o) = [] /\ log_writes (trace o) = [].
Proof. vm_compute. repeat split; reflexivity. Qed.

(** A [GPCC] decoder that exits nonzero. *)
Example gpcc_decoder_exits_nonzero :
  let o := gpcc_run "true" "false" Scenario.world in
  res o = Raise AssertionError /\
  decode_calls (trace o)
  = [("/exp/r1/bin/cube.bin", "/exp/r1/dec/cube.ply")] /\
  evaluations (trace o) = [] /\ log_writes (trace o) = [].
Proof. vm_compute. repeat split; reflexivity. Qed.

(** An encoder that is not installed: the error of [subprocess.run]
    goes through [execute_cmd], [encode], [timer] and [run]. *)
Example gpcc_encoder_missing :
  res (gpcc_run "tmc3" "true" Scenario.world) = Raise FileNotFoundError.
Proof. reflexivity. Qed.

(** Both tools work: one log file, written after the evaluation. *)
Example gpcc_job_logged :
  let o := gpcc_run "true" "true" Scenario.world in
  res o = Ok tt /\
  log_writes (trace o) = [(["/"; "exp"; "r1"; "evl"; "cube.log"], "report")] /\
  fs (env_of o) !! ["/"; "exp"; "r1"; "evl"; "cube.log"]
  = Some (File "report").
Proof. vm_compute. repeat split; reflexivity. Qed.

(** Two devices, two workers. *)
Example pool_of_two_gpus :
  let o := parallel Scenario.two_gpus Scenario.in_order picky
             ["b.ply"; "c.ply"] (VBool true) Scenario.world in
  res o = Ok tt /\ pools_of (trace o) = [Some 2%nat] /\
  tasks_of (trace o) = ["b.ply"; "c.ply"].
Proof. vm_compute. repeat split; reflexivity. Qed.

(** A pool that still finishes one task while it is torn down: of four
    files, the failing one and the next are processed, the last two are
    not. *)
Example pool_torn_down_late :
  let o := parallel Scenario.no_gpu (Schedule (fun l => l) 1) picky
             ["a.ply"; "b.ply"; "c.ply"; "d.ply"] (VBool false)
             Scenario.world in
  res o = Raise AssertionError /\ tasks_of (trace o) = ["a.ply"; "b.ply"].
Proof. vm_compute. repeat split; reflexivity. Qed.

(** The two-line string and a few plain ones. *)
Example rate_patterns :
  Re.search "r1" = Some "r1" /\ Re.search "r35x" = Some "r35" /\
  Re.search "r10" = Some "r1" /\ Re.search "rate1" = None /\
  Re.search "x2" = None /\ Re.search "r0" = None /\
  Re.search two_lines = Some "r1".
Proof. repeat split; reflexivity. Qed.

(** ** The early returns of the override *)

(** Were the two names bound, say on the instance, the override would
    stop after a failed encode command as its comments say: it returns
    without a second command, an evaluation or a log. *)
Lemma PCGCv1_run_skips_after_failed_encode
    evaluate call_set_filepath call_run_command
    self pcfile src_dir nor_dir exp_dir scale color resolution gpu_queue
    e f g p e1 t1 enc_cmd dec_cmd enc_time e2 t2 :
  let self' := setattr (setattr self "_pc_scale" scale) "_color" color in
  getattr self' "_set_filepath" = Ok f ->
  call_set_filepath f self' pcfile src_dir nor_dir exp_dir e
  = Out (Ok p) e1 t1 ->
  make_encode_cmd self' (in_pcfile p) (bin_file p) = Ok enc_cmd ->
  make_decode_cmd self' (bin_file p) (out_pcfile p) = Ok dec_cmd ->
  getattr self' "_run_command" = Ok g ->
  call_run_command g self' enc_cmd (-1)%Q gpu_queue e1
  = Out (Ok (false, enc_time)) e2 t2 ->
  PCGCv1_run evaluate call_set_filepath call_run_command self
    pcfile src_dir nor_dir exp_dir scale color resolution gpu_queue e
  = Out (Ok tt) e2 (t1 ++ t2).
Proof.
  intros self' Hf Hp Henc Hdec Hg Hrun. unfold PCGCv1_run. fold self'.
  rewrite Hf, bind_lift_ok.
  eapply bind_step; [exact Hp| |reflexivity].
  rewrite Henc, bind_lift_ok, Hdec, bind_lift_ok, Hg, bind_lift_ok.
  eapply bind_step; [exact Hrun| |by rewrite app_nil_r].
  reflexivity.
Qed.

(** * Further properties of the code *)

(** ** [timer] *)

(** X1: [timer] makes the call once and adds nothing of its own: the
    events and the environment are those of the call.  It returns the
    clock read after the call minus the clock read before, a negative
    duration when the wall clock was set back in between; an exception
    raised by the call is not caught. *)
Theorem timer_transparent {E A : Type} (func : M E A) (e : Env) :
  let o := func e in
  match res o with
  | Ok _ =>
      timer func e
      = Out (Ok (now (env_of o) - now e)%Q) (env_of o) (trace o) /\
      ((now (env_of o) - now e < 0)%Q <-> (now (env_of o) < now e)%Q)
  | Raise x => timer func e = Out (Raise x) (env_of o) (trace o)
  end.
Proof.
  cbn zeta. destruct (func e) as [[a|x] e1 t] eqn:H; cbn [res env_of trace].
  - split; [by eapply timer_ok|]. split; intros; lra.
  - by apply timer_raise.
Qed.

Example timer_negative :
  res (timer clock_set_back Scenario.world) = Ok (0 - 1 - 0)%Q.
Proof. reflexivity. Qed.

(** ** [execute_cmd] *)

(** X2: an exception of [subprocess.run] itself, whatever it is, reaches
    the caller of [execute_cmd] as it is, with nothing logged or
    printed. *)
Theorem execute_cmd_spawn_failure
    (sp_run : list string -> bool -> option string -> Env ->
              result completed * Env)
    (cmd : list string) (shell : bool) (wd : option string) (e e' : Env)
    (x : exn) :
  sp_run cmd shell wd e = (Raise x, e') ->
  execute_cmd sp_run cmd shell wd e = Out (Raise x) e' [IoSpawn cmd].
Proof. apply execute_cmd_spawn_error. Qed.

Lemma execute_cmd_spawn_failure_witness :
  execute_cmd Scenario.sp_run ["tmc3"; "--mode=0"] false None Scenario.world
  = Out (Raise FileNotFoundError) Scenario.world [IoSpawn ["tmc3"; "--mode=0"]].
Proof.
  apply (execute_cmd_spawn_failure Scenario.sp_run ["tmc3"; "--mode=0"] false
           None Scenario.world Scenario.world FileNotFoundError eq_refl).
Defined.

(** X3: on a nonzero exit code the captured output is decoded as UTF-8
    while the message is built.  Output that is not valid UTF-8 makes
    [execute_cmd] raise [UnicodeDecodeError] instead of returning
    [False]: for stdout after the command line is logged and before
    anything is printed, for stderr after stdout is printed. *)
Theorem execute_cmd_undecodable
    (sp_run : list string -> bool -> option string -> Env ->
              result completed * Env)
    (cmd : list string) (shell : bool) (wd : option string) (e e' : Env)
    (r : completed) :
  sp_run cmd shell wd e = (Ok r, e') ->
  returncode r <> 0%Z ->
  let o := execute_cmd sp_run cmd shell wd e in
  let logged :=
    IoLog INFO ("The stdout and stderr of executed command: "
                +:+ command_line cmd) in
  (Utf8.valid (stdout r) = false ->
   o = Out (Raise UnicodeDecodeError) e' [IoSpawn cmd; logged]) /\
  (Utf8.valid (stdout r) = true -> Utf8.valid (stderr r) = false ->
   o = Out (Raise UnicodeDecodeError) e'
         [IoSpawn cmd; logged; IoPrint (nl +:+ " " +:+ stdout r)]).
Proof.
  intros H Hrc o logged. subst o logged.
  unfold execute_cmd, mbind, M_bind, bind, emit, extern, try_else.
  cbn [res env_of trace]. rewrite H. cbn [res env_of trace].
  apply Z.eqb_neq in Hrc. rewrite Hrc. cbn.
  unfold Utf8.decode. split.
  - intros ->. reflexivity.
  - intros -> ->. reflexivity.
Qed.

Lemma execute_cmd_undecodable_witness :
  res (execute_cmd garbled_run ["tmc3"] false None Scenario.world)
  = Raise UnicodeDecodeError.
Proof.
  pose proof (execute_cmd_undecodable garbled_run ["tmc3"] false None
                Scenario.world Scenario.world _ eq_refl) as H.
  cbn zeta in H. destruct H as [H _]; [discriminate|].
  rewrite (H eq_refl). reflexivity.
Defined.

Lemma str_app_assoc (a b c : string) : (a +:+ b) +:+ c = a +:+ b +:+ c.
Proof.
  induction a as [|x a IH]; [done|].
  change (String x ((a +:+ b) +:+ c) = String x (a +:+ b +:+ c)).
  by f_equal.
Qed.

Lemma str_app_nil_r (a : string) : a +:+ "" = a.
Proof.
  induction a as [|x a IH]; [done|].
  change (String x (a +:+ "") = String x a). by f_equal.
Qed.

Lemma concat_empty_cons (x : string) (xs : list string) :
  String.concat "" (x :: xs) = x +:+ String.concat "" xs.
Proof. destruct xs; cbn [String.concat]; [by rewrite str_app_nil_r|done]. Qed.

Lemma command_line_cons a rest :
  command_line (a :: rest) = a +:+ " " +:+ command_line rest.
Proof.
  unfold command_line. cbn [List.map].
  by rewrite concat_empty_cons, str_app_assoc.
Qed.

(** X4: the command line in the log is every argument followed by one
    space, without quoting: an argument that holds a space is logged
    exactly as two arguments would be. *)
Theorem command_line_unquoted (a b : string) (rest : list string) :
  command_line ((a +:+ " " +:+ b) :: rest) = command_line (a :: b :: rest) /\
  forall cmd1 cmd2,
    command_line (cmd1 ++ cmd2) = command_line cmd1 +:+ command_line cmd2.
Proof.
  split.
  - rewrite !command_line_cons. by rewrite !str_app_assoc.
  - intros cmd1 cmd2. induction cmd1 as [|c cmd1 IH]; [done|].
    cbn [app]. rewrite !command_line_cons, IH.
    by rewrite !str_app_assoc.
Qed.

(** ** [parallel] *)



(** The two ways [parallel] goes on after the choice of the pool size. *)
Lemma parallel_shape {I E : Type} (getAvailable : gpu_policy -> list nat)
    (sched : schedule I) (func : I -> M E unit) (filelist : list I)
    (use_gpu : value) (e : Env) :
  let o := parallel getAvailable sched func filelist use_gpu e in
  (o = Out (Raise ValueError) e [PoolLog ERROR no_gpu_message]) \/
  (exists n,
     let o' := imap_unordered func (overrun sched)
                 (completion sched filelist) e in
     o = Out (res o') (env_of o') (PoolSpawn n :: trace o')).
Proof.
  cbn zeta. unfold parallel.
  destruct (is_True use_gpu).
  - destruct (getAvailable fixed_policy) as [|d ds]; [by left|].
    right. eexists. reflexivity.
  - right. eexists. reflexivity.
Qed.

(** X5: only the boolean [True] selects the exclusive-resource branch
    ([use_gpu is True]).  For every other value of the flag, a truthy
    one like [1] included, the devices are not asked: the dispatcher
    does what it does for [False], with the default pool. *)
Theorem parallel_flag_identity {I E : Type}
    (getAvailable getAvailable' : gpu_policy -> list nat)
    (sched : schedule I) (func : I -> M E unit) (filelist : list I)
    (use_gpu : value) (e : Env) :
  use_gpu <> VBool true ->
  parallel getAvailable sched func filelist use_gpu e
  = parallel getAvailable' sched func filelist (VBool false) e /\
  pools_of (trace (parallel getAvailable sched func filelist use_gpu e))
  = [None].
Proof.
  intros Hv.
  assert (Hf : is_True use_gpu = false).
  { destruct use_gpu as [|[]| | | |]; try done. }
  unfold parallel. rewrite Hf. cbn [is_True]. split; [done|].
  unfold mbind, M_bind, bind, ret, emit. cbn [res env_of trace app].
  change (pools_of (PoolSpawn ?n :: ?t)) with (n :: pools_of t).
  by rewrite imap_pools.
Qed.

Lemma parallel_flag_identity_witness :
  parallel Scenario.no_gpu Scenario.in_order picky ["b.ply"] (VInt 1)
    Scenario.world
  = parallel Scenario.two_gpus Scenario.in_order picky ["b.ply"] (VBool false)
      Scenario.world.
Proof.
  apply (parallel_flag_identity Scenario.no_gpu Scenario.two_gpus
           Scenario.in_order picky ["b.ply"] (VInt 1) Scenario.world).
  discriminate.
Defined.

(** X8: whatever the flag, the devices, the schedule and the jobs, the
    items the pool has run at the end of [parallel] are an initial part
    of the completion order: no item is run twice or out of turn, and
    after a failure nothing beyond the pool's overrun is run. *)
Theorem parallel_runs_a_prefix {I E : Type}
    (getAvailable : gpu_policy -> list nat) (sched : schedule I)
    (func : I -> M E unit) (filelist : list I) (use_gpu : value) (e : Env) :
  let o := parallel getAvailable sched func filelist use_gpu e in
  tasks_of (trace o) `prefix_of` completion sched filelist /\
  (res o = Ok tt -> tasks_of (trace o) = completion sched filelist) /\
  length (pools_of (trace o)) <= 1.
Proof.
  cbn zeta.
  destruct (parallel_shape getAvailable sched func filelist use_gpu e)
    as [->|[n Ho]]; cbn zeta in *.
  - cbn. split; [apply prefix_nil|]. split; [done|lia].
  - rewrite Ho. cbn [res trace].
    change (tasks_of (PoolSpawn ?k :: ?t)) with (tasks_of t).
    change (pools_of (PoolSpawn ?k :: ?t)) with (k :: pools_of t).
    rewrite imap_pools.
    pose proof (imap_outcome func (overrun sched) (completion sched filelist) e)
      as H.
    cbn zeta in H.
    destruct (res (imap_unordered func (overrun sched)
                     (completion sched filelist) e)) as [[]|err].
    + destruct H as [-> _]. split; [done|]. split; [done|cbn; lia].
    + destruct H as (pre & y & post & e_y & -> & -> & _).
      split; [|split; [done|cbn; lia]].
      apply prefix_app, prefix_cons, prefix_take.
Qed.

(** X9: the error the dispatcher raises is that of the first item, in
    completion order, whose job fails: when the jobs before it return
    and its job raises [err], whatever the state of the world, the
    dispatcher raises [err], whatever the later items do, and has run
    the items up to the failing one and those of the pool's overrun. *)
Theorem parallel_first_error {I E : Type}
    (getAvailable : gpu_policy -> list nat) (sched : schedule I)
    (func : I -> M E unit) (filelist pre post : list I) (y : I)
    (err : exn) (e : Env) :
  completion sched filelist = pre ++ y :: post ->
  (forall x e', x ∈ pre -> res (func x e') = Ok tt) ->
  (forall e', res (func y e') = Raise err) ->
  let o := parallel getAvailable sched func filelist (VBool false) e in
  res o = Raise err /\
  tasks_of (trace o) = pre ++ y :: take (overrun sched) post.
Proof.
  intros Horder Hpre Hy. cbn zeta. unfold parallel. cbn [is_True].
  unfold mbind, M_bind, bind, ret, emit. cbn [res env_of trace app].
  change (tasks_of (PoolSpawn ?k :: ?t)) with (tasks_of t).
  rewrite Horder. clear Horder. revert e.
  induction pre as [|x pre IH]; intros e; cbn [app]; rewrite imap_step;
    cbn zeta.
  - rewrite Hy. cbn [res trace]. split; [done|].
    by rewrite tasks_of_task, !tasks_of_app, tasks_of_jobs, drain_tasks,
      app_nil_r.
  - assert (Hx : res (func x e) = Ok tt) by (apply Hpre, elem_of_cons; by left).
    rewrite Hx. cbn [res trace].
    assert (Hpre' : forall x' e', x' ∈ pre -> res (func x' e') = Ok tt).
    { intros x' e' Hin. apply Hpre, elem_of_cons. by right. }
    destruct (IH Hpre' (env_of (func x e))) as [Hr Ht].
    split; [done|].
    by rewrite tasks_of_task, tasks_of_app, tasks_of_jobs, Ht.
Qed.

Lemma parallel_first_error_witness :
  let o := parallel Scenario.no_gpu (Schedule (fun l => l) 1) picky
             ["c.ply"; "a.ply"; "b.ply"; "d.ply"] (VBool false)
             Scenario.world in
  res o = Raise AssertionError /\
  tasks_of (trace o) = ["c.ply"; "a.ply"; "b.ply"].
Proof.
  apply (parallel_first_error Scenario.no_gpu (Schedule (fun l => l) 1) picky
           ["c.ply"; "a.ply"; "b.ply"; "d.ply"] ["c.ply"] ["b.ply"; "d.ply"]
           "a.ply" AssertionError Scenario.world).
  - reflexivity.
  - intros x e' Hx. apply list_elem_of_singleton in Hx as ->. reflexivity.
  - intros e'. reflexivity.
Defined.

(** ** The rate tag, further *)

Lemma take_digits_all_digits s : all_rate_digits (Re.take_digits s) = true.
Proof.
  induction s as [|c s IH]; [done|]. cbn [Re.take_digits].
  destruct (Re.is_rate_digit c) eqn:Hc; [|done].
  cbn [all_rate_digits]. by rewrite Hc.
Qed.

Lemma take_digits_app ds rest :
  all_rate_digits ds = true -> no_digit_ahead rest = true ->
  Re.take_digits (ds +:+ rest) = ds.
Proof.
  intros Hds Hrest. induction ds as [|c ds IH].
  - change ("" +:+ rest) with rest.
    destruct rest as [|c rest]; [done|]. cbn [no_digit_ahead] in Hrest.
    apply negb_true_iff in Hrest. cbn [Re.take_digits]. by rewrite Hrest.
  - cbn [all_rate_digits] in Hds. apply andb_true_iff in Hds as [Hc Hds].
    change (String c ds +:+ rest) with (String c (ds +:+ rest)).
    cbn [Re.take_digits]. rewrite Hc. by rewrite IH.
Qed.

Lemma match_here_shape s m :
  Re.match_here s = Some m ->
  exists ds, m = String "r" ds /\ ds <> "" /\ all_rate_digits ds = true.
Proof.
  destruct s as [|c s]; [done|]. cbn [Re.match_here].
  destruct (Ascii.eqb c "r") eqn:Hc; [|done].
  apply Ascii.eqb_eq in Hc as ->.
  destruct (Re.take_digits s) as [|d ds] eqn:Hd; [done|].
  intros [= <-]. exists (String d ds). split; [done|]. split; [done|].
  rewrite <- Hd. apply take_digits_all_digits.
Qed.

Lemma line_match_shape s m :
  line_match s m ->
  exists ds, m = String "r" ds /\ ds <> "" /\ all_rate_digits ds = true.
Proof.
  revert s m.
  assert (H : forall b s m, line_match_after b s m ->
                exists ds, m = String "r" ds /\ ds <> "" /\
                           all_rate_digits ds = true).
  { fix IH 4. intros b s m [s' p Hl|c s' p b' Hl].
    - destruct Hl as [s'' p' Hm|c s'' p' Hl'].
      + by eapply match_here_shape.
      + by eapply IH.
    - by eapply IH. }
  intros s m [s' p Hm|c s' p Hl]; [by eapply match_here_shape|by eapply H].
Qed.

Lemma match_here_tag ds rest :
  ds <> "" -> all_rate_digits ds = true -> no_digit_ahead rest = true ->
  Re.match_here (String "r" (ds +:+ rest)) = Some (String "r" ds).
Proof.
  intros Hne Hds Hrest. cbn [Re.match_here]. cbn [Ascii.eqb Bool.eqb].
  rewrite take_digits_app by done. by destruct ds.
Qed.

(** X10: what the setter stores is always [r] followed by one or more
    digits [1] to [9], and it is a fixed point of the setter: assigning
    to the plugin the tag read back from it stores the same object,
    without a warning. *)
Theorem rate_tag_round_trip (self self' : object) (s : string) (e : Env)
    (t : list io_event) :
  rate_set self s e = Out (Ok self') e t ->
  exists ds,
    rate_get self' = Ok (VStr (String "r" ds)) /\
    ds <> "" /\ all_rate_digits ds = true /\
    rate_set self' (String "r" ds) e = Out (Ok self') e [].
Proof.
  intros Hset. destruct (Re.search s) as [m|] eqn:Hs.
  2: { rewrite rate_set_no_match in Hset by done. discriminate. }
  rewrite (rate_set_match _ _ _ _ Hs) in Hset. injection Hset as <- <-.
  assert (Hl : line_match s m).
  { apply search_from_sound in Hs.
    inversion Hs; subst; [done|by apply line_match_later]. }
  destruct (line_match_shape _ _ Hl) as (ds & -> & Hne & Hds).
  exists ds. split; [apply rate_get_setattr|]. split; [done|]. split; [done|].
  rewrite (rate_set_match _ _ (String "r" ds)).
  - unfold setattr. cbn [ob_class ob_dict]. by rewrite insert_insert_eq.
  - apply search_match_here.
    rewrite <- (str_app_nil_r ds) at 1. by apply match_here_tag.
Qed.

Lemma rate_tag_round_trip_witness :
  exists ds,
    rate_get (setattr (Scenario.plugin GPCC) "_rate" (VStr "r35"))
    = Ok (VStr (String "r" ds)) /\ all_rate_digits ds = true.
Proof.
  destruct (rate_tag_round_trip (Scenario.plugin GPCC)
              (setattr (Scenario.plugin GPCC) "_rate" (VStr "r35"))
              "r35x" Scenario.world [] eq_refl)
    as (ds & Hget & _ & Hds & _).
  exists ds. by split.
Defined.

(** X11: the tag ends at the first character that is not a digit [1] to
    [9]; what follows is dropped without a warning.  A digit [0] ends
    it too: assigning [r10] stores [r1]. *)
Theorem rate_tag_truncated (self : object) (ds rest : string) (e : Env) :
  ds <> "" -> all_rate_digits ds = true -> no_digit_ahead rest = true ->
  rate_set self (String "r" (ds +:+ rest)) e
  = Out (Ok (setattr self "_rate" (VStr (String "r" ds)))) e [] /\
  rate_get (assign_rate self (String "r" (ds +:+ rest)) e)
  = Ok (VStr (String "r" ds)).
Proof.
  intros Hne Hds Hrest.
  assert (Hs : Re.search (String "r" (ds +:+ rest)) = Some (String "r" ds)).
  { apply search_match_here. by apply match_here_tag. }
  unfold assign_rate. rewrite (rate_set_match _ _ _ _ Hs). cbn [res].
  split; [done|]. apply rate_get_setattr.
Qed.

Lemma rate_tag_truncated_witness :
  rate_get (assign_rate (Scenario.plugin GPCC) "r10" Scenario.world)
  = Ok (VStr "r1").
Proof.
  apply (rate_tag_truncated (Scenario.plugin GPCC) "1" "0" Scenario.world);
    [discriminate | reflexivity | reflexivity].
Defined.

Lemma rate_get_assign self s e :
  rate_get (assign_rate self s e)
  = match Re.search s with
    | Some m => Ok (VStr m)
    | None => rate_get self
    end.
Proof.
  unfold assign_rate. destruct (Re.search s) as [m|] eqn:Hs.
  - rewrite (rate_set_match _ _ _ _ Hs). apply rate_get_setattr.
  - by rewrite rate_set_no_match.
Qed.

(** X12: after any sequence of assignments, accepted or rejected, the
    getter returns the match of the last accepted one; the rejected
    ones change nothing, so with none accepted it returns what it
    returned before. *)
Theorem rate_last_assignment_wins (self : object) (tried : list string)
    (e : Env) :
  rate_get (attempts self tried e)
  = match last_match tried with
    | Some m => Ok (VStr m)
    | None => rate_get self
    end.
Proof.
  revert self. induction tried as [|s rest IH]; intros self; [done|].
  cbn [attempts foldl last_match]. fold (attempts (assign_rate self s e) rest e).
  rewrite IH. destruct (last_match rest); [done|]. apply rate_get_assign.
Qed.

(** ** Path resolution for any item *)

Lemma bind_inv {E A B} (m : M E A) (f : A -> M E B) e b e' t :
  (m ≫= f) e = Out (Ok b) e' t ->
  exists a e1 t1 t2,
    m e = Out (Ok a) e1 t1 /\ f a e1 = Out (Ok b) e' t2 /\ t = t1 ++ t2.
Proof.
  unfold mbind, M_bind, bind. destruct (m e) as [[a|x] e1 t1] eqn:Hm;
    cbn [res env_of trace]; [|discriminate].
  destruct (f a e1) as [r e2 t2] eqn:Hf. cbn [res env_of trace].
  intros [= -> -> <-]. by exists a, e1, t1, t2.
Qed.

Lemma with_suffix_new_name p sfx q :
  Path.with_suffix p sfx = Ok q -> q = removelast p ++ [Path.stem p +:+ sfx].
Proof.
  unfold Path.with_suffix, Path.stem.
  destruct (Path.has_slash sfx); [done|].
  destruct (_ || _); [done|].
  destruct (String.eqb (Path.name p) ""); [done|].
  intros [= <-]. f_equal. f_equal.
  destruct (Path.split_last_dot (Path.name p)) as [ab|]; [|done].
  by destruct (Path.proper_split ab).
Qed.

Lemma with_suffix_ok p sfx :
  suffix_ok sfx = true -> Path.name p <> "" ->
  Path.with_suffix p sfx = Ok (removelast p ++ [Path.stem p +:+ sfx]).
Proof.
  intros Hs Hn. unfold suffix_ok in Hs.
  apply andb_true_iff in Hs as [Hslash Hdot].
  apply negb_true_iff in Hslash, Hdot.
  destruct (Path.with_suffix p sfx) as [q|x] eqn:Hw.
  - by rewrite (with_suffix_new_name _ _ _ Hw).
  - exfalso. unfold Path.with_suffix in Hw. rewrite Hslash, Hdot in Hw.
    apply String.eqb_neq in Hn. by rewrite Hn in Hw.
Qed.


Lemma relative_head pc :
  Path.is_absolute pc = false -> pc <> [] ->
  exists w rest, pc = w :: rest /\ Path.is_root w = false.
Proof. destruct pc as [|w rest]; [done|]. intros H _. by exists w, rest. Qed.

Lemma name_relative pc :
  Path.is_absolute pc = false -> Path.name pc = List.last pc "".
Proof.
  destruct pc as [|w rest]; [done|]. unfold Path.is_absolute, Path.name.
  by intros ->.
Qed.

Lemma last_app_nonempty (a pc : list string) :
  pc <> [] -> List.last (a ++ pc) "" = List.last pc "".
Proof.
  intros Hpc. induction a as [|x a IH]; [done|].
  cbn [app]. destruct (a ++ pc) eqn:Hap; [|by rewrite <- IH].
  apply app_eq_nil in Hap as [_ ->]. done.
Qed.

(** Joining a relative item under an absolute directory. *)
Lemma join_under ws d pc :
  Path.is_absolute pc = false ->
  Path.joinpath (Path.joinpath ("/" :: ws) [d]) pc
  = if Path.is_root d then d :: pc else "/" :: ws ++ [d] ++ pc.
Proof.
  intros Hpc. unfold Path.joinpath at 2. cbn [Path.is_absolute].
  destruct (Path.is_root d); unfold Path.joinpath; rewrite Hpc; [done|].
  cbn [app]. by rewrite <- app_assoc.
Qed.

Lemma name_under ws d pc :
  Path.is_absolute pc = false -> pc <> [] ->
  Path.name ("/" :: ws ++ [d] ++ pc) = Path.name pc.
Proof.
  intros Hpc Hne. rewrite (name_relative pc Hpc).
  cbn [Path.name Path.is_root String.eqb Ascii.eqb Bool.eqb orb].
  by rewrite app_assoc, last_app_nonempty.
Qed.

Lemma stem_under ws d pc :
  Path.is_absolute pc = false -> pc <> [] ->
  Path.stem ("/" :: ws ++ [d] ++ pc) = Path.stem pc.
Proof. intros Hpc Hne. unfold Path.stem. by rewrite name_under. Qed.

Lemma removelast_under ws d pc :
  pc <> [] ->
  removelast ("/" :: ws ++ [d] ++ pc) = "/" :: ws ++ [d] ++ removelast pc.
Proof.
  intros Hne.
  replace ("/" :: ws ++ [d] ++ pc) with (("/" :: ws ++ [d]) ++ pc)
    by (cbn [app]; by rewrite <- app_assoc).
  rewrite removelast_app by done. cbn [app]. by rewrite <- app_assoc.
Qed.

Lemma parent_of_file ws name :
  Path.parent ("/" :: ws ++ [name]) = "/" :: ws.
Proof.
  cbn [Path.parent Path.is_root String.eqb Ascii.eqb Bool.eqb orb].
  by rewrite removelast_last.
Qed.

Lemma plain_removelast pc : plain_parts pc -> plain_parts (removelast pc).
Proof.
  unfold plain_parts. induction 1 as [|w rest Hw Hrest IH]; [constructor|].
  cbn [removelast]. destruct rest; [constructor|]. by constructor.
Qed.

Lemma plain_subtree ws d pc :
  plain_parts ws -> d <> ".." -> plain_parts pc ->
  plain_parts (subtree_dir ws d pc).
Proof.
  intros Hws Hd Hpc. unfold subtree_dir, plain_parts.
  apply Forall_app. split; [done|]. apply Forall_app. split.
  - by constructor.
  - by apply plain_removelast.
Qed.

Lemma mkdir_clear_way {E} ws e :
  plain_parts ws -> clear_way e ws ->
  exists e',
    mkdir (E:=E) ("/" :: ws) true true e = Out (Ok tt) e' [] /\
    grows e e' /\ fs e' !! ("/" :: ws) = Some Dir.
Proof.
  intros Hplain Hway.
  destruct (mkdir_parents_ok (E:=E) ws (S (length ("/" :: ws))) e
              ltac:(cbn; lia) Hplain Hway) as (e' & Hmk & Hg & Hd & _).
  by exists e'.
Qed.

Lemma split_item pc :
  pc <> [] -> pc = removelast pc ++ [List.last pc ""].
Proof. intros H. by apply app_removelast_last. Qed.


Ltac scenario_clear_way :=
  split; [vm_compute; reflexivity|];
  let n := fresh "n" in
  intros n;
  do 7 (destruct n as [|n];
        [first [right; vm_compute; reflexivity
               |left; vm_compute; reflexivity]|]);
  first [right; vm_compute; reflexivity | left; vm_compute; reflexivity].


(** What a successful resolution has returned. *)
Lemma set_filepath_paths {E} self pc src nor exp e p e' t :
  set_filepath (E:=E) self pc src nor exp e = Out (Ok p) e' t ->
  exists sfx,
    let B := Path.joinpath (Path.joinpath exp ["bin"]) pc in
    let L := Path.joinpath (Path.joinpath exp ["evl"]) pc in
    bin_suffix_of self = Ok sfx /\
    p = JobPaths (Path.joinpath src pc) (Path.joinpath nor pc)
          (removelast B ++ [Path.stem B +:+ sfx])
          (Path.joinpath (Path.joinpath exp ["dec"]) pc)
          (removelast L ++ [Path.stem L +:+ ".log"]).
Proof.
  unfold set_filepath, bin_suffix_of. intros H.
  destruct (get_data self "_algs_cfg") as [cfg|x];
    [rewrite bind_lift_ok in H | by rewrite bind_lift_raise in H].
  destruct (subscript cfg "bin_suffix") as [v|x];
    [rewrite bind_lift_ok in H | by rewrite bind_lift_raise in H].
  destruct (as_str v) as [sfx|x];
    [rewrite bind_lift_ok in H | by rewrite bind_lift_raise in H].
  destruct (Path.with_suffix _ sfx) as [b|x] eqn:Hb;
    [rewrite bind_lift_ok in H | by rewrite bind_lift_raise in H].
  destruct (Path.with_suffix _ ".log") as [l|x] eqn:Hl;
    [rewrite bind_lift_ok in H | by rewrite bind_lift_raise in H].
  apply bind_inv in H as (? & e1 & ? & ? & _ & H & _).
  apply bind_inv in H as (? & e2 & ? & ? & _ & H & _).
  apply bind_inv in H as (? & e3 & ? & ? & _ & H & _).
  injection H as <- _ _. exists sfx. cbn zeta. split; [done|].
  by rewrite (with_suffix_new_name _ _ _ Hb), (with_suffix_new_name _ _ _ Hl).
Qed.

Lemma joinpath_absolute p q : Path.is_absolute q = true -> Path.joinpath p q = q.
Proof. intros H. unfold Path.joinpath. by rewrite H. Qed.

(** X14: an absolute item is not placed under the experiment root.
    Whenever [__set_filepath] returns for it, the input, the input with
    normals and the reconstructed output are the item itself, so that
    the decoder is given the input file to write to, and the artifact
    and the log lie in the item's own directory. *)
Theorem set_filepath_absolute_item {E : Type} (self : object)
    (pc src_dir nor_dir exp_dir : Path.t) (e e' : Env) (p : job_paths)
    (t : list E) :
  Path.is_absolute pc = true ->
  set_filepath self pc src_dir nor_dir exp_dir e = Out (Ok p) e' t ->
  in_pcfile p = pc /\ nor_pcfile p = pc /\ out_pcfile p = pc /\
  removelast (bin_file p) = removelast pc /\
  removelast (evl_log p) = removelast pc.
Proof.
  intros Habs H.
  destruct (set_filepath_paths _ _ _ _ _ _ _ _ _ H) as (sfx & _ & ->).
  cbn zeta. cbn [in_pcfile nor_pcfile out_pcfile bin_file evl_log].
  rewrite !(joinpath_absolute _ pc Habs).
  by rewrite !removelast_last.
Qed.

Lemma set_filepath_absolute_item_witness :
  match res (set_filepath (E:=run_event) (Scenario.plugin GPCC)
               ["/"; "data"; "src"; "cube.ply"] ["/"; "data"; "src"]
               ["/"; "data"; "nor"] ["/"; "exp"; "r1"] Scenario.world) with
  | Ok p => out_pcfile p = ["/"; "data"; "src"; "cube.ply"]
  | Raise _ => False
  end.
Proof.
  destruct (set_filepath (E:=run_event) (Scenario.plugin GPCC)
              ["/"; "data"; "src"; "cube.ply"] ["/"; "data"; "src"]
              ["/"; "data"; "nor"] ["/"; "exp"; "r1"] Scenario.world)
    as [[p|x] e' t] eqn:H; cbn [res].
  - exact (proj1 (proj2 (proj2
             (set_filepath_absolute_item (E:=run_event) (Scenario.plugin GPCC)
                ["/"; "data"; "src"; "cube.ply"] ["/"; "data"; "src"]
                ["/"; "data"; "nor"] ["/"; "exp"; "r1"] Scenario.world
                e' p t eq_refl H)))).
  - vm_compute in H. discriminate H.
Defined.

(** X15: the artifact and the log of an item are named after its stem.
    Two relative items of one directory that differ in their last
    suffix only are given the same artifact path and the same log
    path, though different outputs: the log of the one job replaces
    the log of the other. *)
Theorem set_filepath_stem_collision {E : Type} (self : object)
    (pc1 pc2 src_dir nor_dir : Path.t) (ws : list string)
    (e1 e1' e2 e2' : Env) (p1 p2 : job_paths) (t1 t2 : list E) :
  Path.is_absolute pc1 = false -> Path.is_absolute pc2 = false ->
  pc1 <> [] -> pc2 <> [] ->
  removelast pc1 = removelast pc2 -> Path.stem pc1 = Path.stem pc2 ->
  set_filepath self pc1 src_dir nor_dir ("/" :: ws) e1 = Out (Ok p1) e1' t1 ->
  set_filepath self pc2 src_dir nor_dir ("/" :: ws) e2 = Out (Ok p2) e2' t2 ->
  bin_file p1 = bin_file p2 /\ evl_log p1 = evl_log p2 /\
  (pc1 <> pc2 -> out_pcfile p1 <> out_pcfile p2).
Proof.
  intros R1 R2 N1 N2 Hdir Hstem H1 H2.
  destruct (set_filepath_paths _ _ _ _ _ _ _ _ _ H1) as (s1 & Hs1 & ->).
  destruct (set_filepath_paths _ _ _ _ _ _ _ _ _ H2) as (s2 & Hs2 & ->).
  rewrite Hs1 in Hs2. injection Hs2 as <-.
  cbn zeta. cbn [bin_file evl_log out_pcfile].
  rewrite !(join_under ws _ pc1 R1), !(join_under ws _ pc2 R2).
  cbn [Path.is_root String.eqb Ascii.eqb Bool.eqb orb].
  rewrite !removelast_under, !stem_under by done.
  rewrite Hdir, Hstem. split; [done|]. split; [done|].
  intros Hne Heq. apply Hne. injection Heq as Heq.
  apply app_inv_head in Heq. by injection Heq.
Qed.

Lemma set_filepath_stem_collision_witness :
  match res (set_filepath (E:=run_event) (Scenario.plugin GPCC)
               ["cube.ply"] ["/"; "data"; "src"] ["/"; "data"; "nor"]
               ["/"; "exp"; "r1"] Scenario.world),
        res (set_filepath (E:=run_event) (Scenario.plugin GPCC)
               ["cube.xyz"] ["/"; "data"; "src"] ["/"; "data"; "nor"]
               ["/"; "exp"; "r1"] Scenario.world) with
  | Ok p1, Ok p2 => bin_file p1 = bin_file p2 /\ evl_log p1 = evl_log p2
  | _, _ => False
  end.
Proof.
  destruct (set_filepath (E:=run_event) (Scenario.plugin GPCC)
              ["cube.ply"] ["/"; "data"; "src"] ["/"; "data"; "nor"]
              ["/"; "exp"; "r1"] Scenario.world)
    as [[p1|x] e1' t1] eqn:H1; [|vm_compute in H1; discriminate H1].
  destruct (set_filepath (E:=run_event) (Scenario.plugin GPCC)
              ["cube.xyz"] ["/"; "data"; "src"] ["/"; "data"; "nor"]
              ["/"; "exp"; "r1"] Scenario.world)
    as [[p2|x] e2' t2] eqn:H2; [|vm_compute in H2; discriminate H2].
  cbn [res].
  destruct (set_filepath_stem_collision (E:=run_event) (Scenario.plugin GPCC)
              ["cube.ply"] ["cube.xyz"] ["/"; "data"; "src"]
              ["/"; "data"; "nor"] ["exp"; "r1"] Scenario.world e1'
              Scenario.world e2' p1 p2 t1 t2 eq_refl eq_refl
              ltac:(discriminate) ltac:(discriminate) eq_refl eq_refl H1 H2)
    as (Hb & Hl & _).
  by split.
Defined.




Lemma mkdir_fuel_file {E} fuel p parents exist_ok e c :
  fs e !! Path.resolve (cwd e) p = Some (File c) ->
  mkdir_fuel (E:=E) fuel p parents exist_ok e
  = Out (Raise FileExistsError) e [].
Proof.
  intros H.
  assert (Hos : os_mkdir (E:=E) p e = Out (Raise FileExistsError) e []).
  { unfold os_mkdir, mbind, M_bind, bind, get_env. cbn [res env_of trace].
    by rewrite H. }
  assert (Hd : is_dir (E:=E) p e = Out (Ok false) e []).
  { unfold is_dir, mbind, M_bind, bind, get_env, ret. cbn [res env_of trace].
    by rewrite H. }
  destruct fuel; cbn [mkdir_fuel]; unfold try_with; rewrite Hos;
    cbn [res env_of trace]; unfold mbind, M_bind, bind; rewrite Hd;
    cbn [res env_of trace]; by rewrite orb_true_r.
Qed.

(** X17: [exist_ok] tolerates directories only, and the three
    directories are not created as one.  With the way to the artifact
    directory clear and a regular file where the output directory is to
    be, [__set_filepath] raises [FileExistsError]; the artifact
    directory it created before stays, the file is as it was. *)
Theorem set_filepath_blocked {E : Type} (self : object) (sfx : string)
    (pc src_dir nor_dir : Path.t) (ws : list string) (e : Env)
    (content : string) :
  bin_suffix_of self = Ok sfx -> suffix_ok sfx = true ->
  Path.is_absolute pc = false -> Path.name pc <> "" ->
  plain_parts pc -> plain_parts ws ->
  clear_way e (subtree_dir ws "bin" pc) ->
  fs e !! ("/" :: subtree_dir ws "dec" pc) = Some (File content) ->
  exists e',
    set_filepath (E:=E) self pc src_dir nor_dir ("/" :: ws) e
    = Out (Raise FileExistsError) e' [] /\
    grows e e' /\
    fs e' !! ("/" :: subtree_dir ws "bin" pc) = Some Dir /\
    fs e' !! ("/" :: subtree_dir ws "dec" pc) = Some (File content).
Proof.
  intros Hs Hok Hrel Hname Hpc Hws Wbin Hfile.
  assert (Hne : pc <> []) by (intros ->; by apply Hname).
  destruct (mkdir_clear_way (E:=E) _ e
              (plain_subtree ws "bin" pc Hws ltac:(discriminate) Hpc) Wbin)
    as (e1 & M1 & G1 & D1).
  assert (Hfile1 : fs e1 !! ("/" :: subtree_dir ws "dec" pc)
                   = Some (File content)).
  { destruct G1 as (_ & _ & G1).
    destruct (G1 ("/" :: subtree_dir ws "dec" pc)) as [->|[Hn _]]; congruence. }
  exists e1. split; [|by split].
  unfold bin_suffix_of in Hs. unfold set_filepath.
  destruct (get_data self "_algs_cfg") as [cfg|y]; [|done].
  rewrite bind_lift_ok.
  destruct (subscript cfg "bin_suffix") as [v|y]; [|done].
  rewrite bind_lift_ok, Hs, bind_lift_ok.
  rewrite !(join_under ws _ pc Hrel).
  cbn [Path.is_root String.eqb Ascii.eqb Bool.eqb orb].
  rewrite (with_suffix_ok _ sfx Hok) by (by rewrite name_under).
  rewrite bind_lift_ok.
  rewrite (with_suffix_ok _ ".log" eq_refl) by (by rewrite name_under).
  rewrite bind_lift_ok.
  rewrite !removelast_under, !stem_under by done.
  fold (subtree_dir ws "bin" pc). fold (subtree_dir ws "evl" pc).
  change (("/" :: subtree_dir ws "bin" pc) ++ [Path.stem pc +:+ sfx])
    with ("/" :: subtree_dir ws "bin" pc ++ [Path.stem pc +:+ sfx]).
  rewrite parent_of_file.
  replace (Path.parent ("/" :: ws ++ ["dec"] ++ pc))
    with ("/" :: subtree_dir ws "dec" pc).
  2: { rewrite (split_item pc Hne) at 2. unfold subtree_dir.
       replace (ws ++ ["dec"] ++ removelast pc ++ [List.last pc ""])
         with ((ws ++ ["dec"] ++ removelast pc) ++ [List.last pc ""])
         by (by rewrite <- !app_assoc).
       by rewrite parent_of_file. }
  eapply bind_step; [exact M1| |reflexivity].
  apply bind_raise. apply mkdir_fuel_file with content.
  rewrite resolve_plain; [done|].
  by apply (plain_subtree ws "dec" pc).
Qed.

Lemma set_filepath_blocked_witness :
  exists e',
    set_filepath (E:=run_event) (Scenario.plugin GPCC)
      ["cube.ply"] ["/"; "data"; "src"] ["/"; "data"; "nor"]
      ["/"; "exp"; "r1"] blocked_world
    = Out (Raise FileExistsError) e' [] /\
    fs blocked_world !! ["/"; "exp"; "r1"; "bin"] = None /\
    fs e' !! ["/"; "exp"; "r1"; "bin"] = Some Dir.
Proof.
  destruct (set_filepath_blocked (E:=run_event) (Scenario.plugin GPCC) ".bin"
              ["cube.ply"] ["/"; "data"; "src"] ["/"; "data"; "nor"]
              ["exp"; "r1"] blocked_world "not a directory"
              eq_refl eq_refl eq_refl)
    as (e' & Hrun & _ & Hbin & _).
  - discriminate.
  - repeat constructor; discriminate.
  - repeat constructor; discriminate.
  - scenario_clear_way.
  - reflexivity.
  - exists e'. split; [exact Hrun|]. split; [reflexivity|exact Hbin].
Defined.

(** ** [Base.run], further *)

Section RunFacts.

Context {codec : Codec}.
Variable evaluate : eval_args -> Env -> result string * Env.

(** How the last stage ends: with an error and no log, or with the log
    written. *)
Lemma report_stage_cases args p e :
  (exists x e',
     report_stage evaluate args p e = Out (Raise x) e' [RunEvaluate args]) \/
  (exists report e1,
     evaluate args e = (Ok report, e1) /\
     let q := Path.resolve (cwd e1) (evl_log p) in
     report_stage evaluate args p e
     = Out (Ok tt) (set_fs e1 (<[q := File report]> (fs e1)))
         [RunEvaluate args; RunWrite q report]).
Proof.
  unfold report_stage. rewrite bind_emit.
  unfold mbind, M_bind, bind, extern.
  destruct (evaluate args e) as [[report|x] e1]; cbn [res env_of trace app].
  2: { left. by exists x, e1. }
  unfold open_write, mbind, M_bind, bind, get_env. cbn [res env_of trace].
  destruct (fs e1 !! Path.resolve (cwd e1) (evl_log p)) as [[|c]|] eqn:Hq.
  - left. by eexists _, _.
  - destruct (fs e1 !! removelast _) as [[|c']|];
      cbn [res env_of trace app put_env emit raise];
      [right; by exists report, e1 | left; by eexists _, _ ..].
  - destruct (fs e1 !! removelast _) as [[|c']|];
      cbn [res env_of trace app put_env emit raise];
      [right; by exists report, e1 | left; by eexists _, _ ..].
Qed.

(** The steps a run has made, whatever its outcome: every step is made
    at most once and only after the one before it. *)
Lemma run_steps_chain self pcfile src nor exp color resolution e :
  let t := trace (Base_run evaluate self pcfile src nor exp color resolution e) in
  length (log_writes t) <= length (evaluations t) /\
  length (evaluations t) <= length (decode_calls t) /\
  length (decode_calls t) <= length (encode_calls t) /\
  length (encode_calls t) <= 1.
Proof.
  cbn zeta. set (self' := job_self self color resolution).
  destruct (resolve_stage self' pcfile src nor exp e) as [[p|x] e1 t1] eqn:Hp.
  2: { rewrite (run_resolve_fails evaluate _ _ _ _ _ _ _ _ _ _ _ Hp).
       cbn. lia. }
  destruct (encode_step self' p e1) as [[[]|x] e2 t2] eqn:Henc.
  2: { rewrite (run_encode_fails evaluate _ _ _ _ _ _ _ _ _ _ _ _ _ _
                  Hp Henc).
       cbn [trace]. destruct (io_is_no_step t2) as (He & Hd & Hv & Hw).
       read_steps. rewrite He, Hd, Hv, Hw. cbn. lia. }
  destruct (decode_step self' p e2) as [[[]|x] e3 t3] eqn:Hdec.
  2: { rewrite (run_decode_fails evaluate _ _ _ _ _ _ _ _ _ _ _ _ _ _ _ _
                  Hp Henc Hdec).
       cbn [trace]. destruct (io_is_no_step t2) as (He2 & Hd2 & Hv2 & Hw2).
       destruct (io_is_no_step t3) as (He3 & Hd3 & Hv3 & Hw3).
       read_steps. rewrite He2, Hd2, Hv2, Hw2, He3, Hd3, Hv3, Hw3. cbn. lia. }
  rewrite (run_codec_done evaluate _ _ _ _ _ _ _ _ _ _ _ _ _ _ _
             Hp Henc Hdec).
  cbn [trace]. destruct (io_is_no_step t2) as (He2 & Hd2 & Hv2 & Hw2).
  destruct (io_is_no_step t3) as (He3 & Hd3 & Hv3 & Hw3).
  match goal with
  | |- context [report_stage evaluate ?a p e3] =>
      destruct (report_stage_cases a p e3) as [(x & e' & ->)|(r & e4 & _ & H)];
        [|cbn zeta in H; rewrite H]
  end; cbn [trace]; read_steps;
    rewrite He2, Hd2, Hv2, Hw2, He3, Hd3, Hv3, Hw3; cbn; lia.
Qed.

(** What a successful run has done. *)
Lemma run_success_inv self pcfile src nor exp color resolution e :
  let self' := job_self self color resolution in
  let o := Base_run evaluate self pcfile src nor exp color resolution e in
  res o = Ok tt ->
  exists p e1 e2 t2 e3 t3 report e4,
    resolve_stage self' pcfile src nor exp e = Out (Ok p) e1 [] /\
    encode_step self' p e1 = Out (Ok tt) e2 t2 /\
    decode_step self' p e2 = Out (Ok tt) e3 t3 /\
    let args :=
      EvalArgs (nor_pcfile p) (out_pcfile p) color resolution
        (now e2 - now e1)%Q (now e3 - now e2)%Q
        (glob_list e3 (Path.parent (bin_file p))
           (Path.stem (bin_file p) +:+ "*") true) in
    let q := Path.resolve (cwd e4) (evl_log p) in
    evaluate args e3 = (Ok report, e4) /\
    o = Out (Ok tt) (set_fs e4 (<[q := File report]> (fs e4)))
          ((encode_mark p :: List.map RunIO t2)
           ++ (decode_mark p :: List.map RunIO t3)
           ++ [RunEvaluate args; RunWrite q report]).
Proof.
  intros self' o Hok. subst o.
  destruct (resolve_stage self' pcfile src nor exp e) as [[p|x] e1 t1] eqn:Hp.
  2: { rewrite (run_resolve_fails evaluate _ _ _ _ _ _ _ _ _ _ _ Hp) in Hok.
       discriminate Hok. }
  pose proof (resolve_stage_out _ _ _ _ _ _ _ _ _ Hp) as ->.
  destruct (encode_step self' p e1) as [[[]|x] e2 t2] eqn:Henc.
  2: { rewrite (run_encode_fails evaluate _ _ _ _ _ _ _ _ _ _ _ _ _ _
                  Hp Henc) in Hok.
       discriminate Hok. }
  destruct (decode_step self' p e2) as [[[]|x] e3 t3] eqn:Hdec.
  2: { rewrite (run_decode_fails evaluate _ _ _ _ _ _ _ _ _ _ _ _ _ _ _ _
                  Hp Henc Hdec) in Hok.
       discriminate Hok. }
  rewrite (run_codec_done evaluate _ _ _ _ _ _ _ _ _ _ _ _ _ _ _
             Hp Henc Hdec) in Hok |- *.
  cbn [res] in Hok.
  match type of Hok with
  | context [report_stage evaluate ?a p e3] =>
      destruct (report_stage_cases a p e3) as [(x & e' & H)|(r & e4 & Hev & H)]
  end.
  { rewrite H in Hok. discriminate Hok. }
  cbn zeta in H. exists p, e1, e2, t2, e3, t3, r, e4.
  split; [done|]. split; [done|]. split; [done|]. cbn zeta.
  split; [done|]. by rewrite H.
Qed.

End RunFacts.

(** X18: the steps of a job are a chain.  In every run, whatever the
    codec, the metrics and the file system do, [encode] is called at
    most once, [decode] only after [encode], the metrics only after
    [decode], and the log is written only after the metrics: one log or
    none.  A run that returns has made each step exactly once. *)
Theorem run_state_machine `{codec : Codec}
    (evaluate : eval_args -> Env -> result string * Env)
    (self : object) (pcfile src_dir nor_dir exp_dir : Path.t)
    (color resolution : value) (e : Env) :
  let o := Base_run evaluate self pcfile src_dir nor_dir exp_dir
             color resolution e in
  length (log_writes (trace o)) <= length (evaluations (trace o)) /\
  length (evaluations (trace o)) <= length (decode_calls (trace o)) /\
  length (decode_calls (trace o)) <= length (encode_calls (trace o)) /\
  length (encode_calls (trace o)) <= 1 /\
  (res o = Ok tt -> length (log_writes (trace o)) = 1).
Proof.
  cbn zeta.
  destruct (run_steps_chain evaluate self pcfile src_dir nor_dir exp_dir
              color resolution e) as (H1 & H2 & H3 & H4).
  cbn zeta in *. repeat (split; [done|]). intros Hok.
  destruct (run_success_inv evaluate self pcfile src_dir nor_dir exp_dir
              color resolution e Hok)
    as (p & e1 & e2 & t2 & e3 & t3 & r & e4 & _ & _ & _ & _ & ->).
  cbn [trace]. destruct (io_is_no_step t2) as (_ & _ & _ & Hw2).
  destruct (io_is_no_step t3) as (_ & _ & _ & Hw3).
  read_steps. by rewrite Hw2, Hw3.
Qed.

Lemma run_state_machine_witness :
  length (log_writes
            (trace (scenario_run (Scenario.stub true true) Scenario.world)))
  = 1.
Proof.
  apply (@run_state_machine (Scenario.stub true true) Scenario.evaluate
           (Scenario.plugin GPCC)
           (Path.of_string "cube.ply") (Path.of_string "/data/src")
           (Path.of_string "/data/nor")
           (Path.joinpath (Path.of_string "/exp") (Path.of_string "r1"))
           (VInt 0) VNone Scenario.world).
  reflexivity.
Defined.

(** X19: what the metrics are given.  In a run that returns, the
    metrics were evaluated once, with the input with normals as
    reference, the reconstructed output as target, the colour flag and
    the resolution as [run] received them, and as durations the clock
    after minus the clock before the encode and the decode call. *)
Theorem run_metrics_arguments `{codec : Codec}
    (evaluate : eval_args -> Env -> result string * Env)
    (self : object) (pcfile src_dir nor_dir exp_dir : Path.t)
    (color resolution : value) (e : Env) :
  let self' := job_self self color resolution in
  let o := Base_run evaluate self pcfile src_dir nor_dir exp_dir
             color resolution e in
  res o = Ok tt ->
  exists p e1 e2 t2 e3 t3 args,
    resolve_stage self' pcfile src_dir nor_dir exp_dir e = Out (Ok p) e1 [] /\
    encode_step self' p e1 = Out (Ok tt) e2 t2 /\
    decode_step self' p e2 = Out (Ok tt) e3 t3 /\
    evaluations (trace o) = [args] /\
    ea_ref args = nor_pcfile p /\ ea_target args = out_pcfile p /\
    ea_color args = color /\ ea_resolution args = resolution /\
    ea_enc_time args = (now e2 - now e1)%Q /\
    ea_dec_time args = (now e3 - now e2)%Q.
Proof.
  intros self' o Hok.
  destruct (run_success_inv evaluate self pcfile src_dir nor_dir exp_dir
              color resolution e Hok)
    as (p & e1 & e2 & t2 & e3 & t3 & r & e4 & Hp & Henc & Hdec & _ & Ho).
  eexists p, e1, e2, t2, e3, t3, _.
  split; [done|]. split; [done|]. split; [done|].
  subst o. rewrite Ho. cbn [trace].
  destruct (io_is_no_step t2) as (_ & _ & Hv2 & _).
  destruct (io_is_no_step t3) as (_ & _ & Hv3 & _).
  split; [read_steps; by rewrite Hv2, Hv3|]. done.
Qed.

Lemma run_metrics_arguments_witness :
  exists args,
    evaluations (trace (scenario_run (Scenario.stub true true) Scenario.world))
    = [args] /\
    ea_ref args = ["/"; "data"; "nor"; "cube.ply"] /\
    ea_target args = ["/"; "exp"; "r1"; "dec"; "cube.ply"].
Proof.
  destruct (@run_metrics_arguments (Scenario.stub true true)
              Scenario.evaluate (Scenario.plugin GPCC)
              (Path.of_string "cube.ply") (Path.of_string "/data/src")
              (Path.of_string "/data/nor")
              (Path.joinpath (Path.of_string "/exp") (Path.of_string "r1"))
              (VInt 0) VNone Scenario.world eq_refl)
    as (p & e1 & e2 & t2 & e3 & t3 & args & Hp & _ & _ & Hev & Hr & Ht & _).
  exists args. split; [exact Hev|].
  vm_compute in Hp. injection Hp as <- _.
  split; [exact Hr|exact Ht].
Defined.

(** X20: the log is the report.  In a run that returns, the one file
    written is the log path, opened for writing: it holds the report of
    the metrics unchanged, whatever it held before, and nothing else on
    the file system differs from what the metrics left. *)
Theorem run_log_verbatim `{codec : Codec}
    (evaluate : eval_args -> Env -> result string * Env)
    (self : object) (pcfile src_dir nor_dir exp_dir : Path.t)
    (color resolution : value) (e : Env) :
  let o := Base_run evaluate self pcfile src_dir nor_dir exp_dir
             color resolution e in
  res o = Ok tt ->
  exists p e1 args e3 report e4,
    resolve_stage (job_self self color resolution)
      pcfile src_dir nor_dir exp_dir e = Out (Ok p) e1 [] /\
    evaluations (trace o) = [args] /\
    evaluate args e3 = (Ok report, e4) /\
    let q := Path.resolve (cwd e4) (evl_log p) in
    log_writes (trace o) = [(q, report)] /\
    fs (env_of o) !! q = Some (File report) /\
    forall k, k <> q -> fs (env_of o) !! k = fs e4 !! k.
Proof.
  intros o Hok.
  destruct (run_success_inv evaluate self pcfile src_dir nor_dir exp_dir
              color resolution e Hok)
    as (p & e1 & e2 & t2 & e3 & t3 & r & e4 & Hp & _ & _ & Hev & Ho).
  cbn zeta in Hev, Ho.
  eexists p, e1, _, e3, r, e4. split; [done|].
  subst o. rewrite Ho. cbn [trace env_of].
  destruct (io_is_no_step t2) as (_ & _ & Hv2 & Hw2).
  destruct (io_is_no_step t3) as (_ & _ & Hv3 & Hw3).
  split; [read_steps; by rewrite Hv2, Hv3|]. split; [exact Hev|].
  cbn zeta. split; [read_steps; by rewrite Hw2, Hw3|].
  unfold set_fs. cbn [fs]. split; [by rewrite lookup_insert_eq|].
  intros k Hk. by rewrite lookup_insert_ne.
Qed.

Lemma run_log_verbatim_witness :
  let o := scenario_run (Scenario.stub true true) Scenario.world in
  log_writes (trace o) = [(["/"; "exp"; "r1"; "evl"; "cube.log"], "report")].
Proof.
  cbn zeta.
  destruct (@run_log_verbatim (Scenario.stub true true)
              Scenario.evaluate (Scenario.plugin GPCC)
              (Path.of_string "cube.ply") (Path.of_string "/data/src")
              (Path.of_string "/data/nor")
              (Path.joinpath (Path.of_string "/exp") (Path.of_string "r1"))
              (VInt 0) VNone Scenario.world eq_refl)
    as (p & e1 & args & e3 & r & e4 & Hp & _ & Hev & Hw & _).
  vm_compute in Hp. injection Hp as <- _.
  unfold Scenario.evaluate in Hev. injection Hev as <- <-.
  reflexivity.
Defined.

(** X21: a failing evaluation leaves no log.  When the codec steps have
    returned and the metrics raise, [run] raises their error; no log is
    written, and the artifact and the output stay as [decode] and the
    metrics left them. *)
Theorem run_stops_at_failed_evaluation `{codec : Codec}
    (evaluate : eval_args -> Env -> result string * Env)
    (self : object) (pcfile src_dir nor_dir exp_dir : Path.t)
    (color resolution : value) (e e1 e2 e3 e4 : Env) (p : job_paths)
    (x : exn) (t1 : list run_event) (t2 t3 : list io_event) :
  let self' := job_self self color resolution in
  resolve_stage self' pcfile src_dir nor_dir exp_dir e = Out (Ok p) e1 t1 ->
  encode_step self' p e1 = Out (Ok tt) e2 t2 ->
  decode_step self' p e2 = Out (Ok tt) e3 t3 ->
  (forall args, evaluate args e3 = (Raise x, e4)) ->
  let o := Base_run evaluate self pcfile src_dir nor_dir exp_dir
             color resolution e in
  res o = Raise x /\ env_of o = e4 /\
  length (evaluations (trace o)) = 1 /\ log_writes (trace o) = [].
Proof.
  intros self' Hp Henc Hdec Hev o. subst o.
  rewrite (run_codec_done evaluate _ _ _ _ _ _ _ _ _ _ _ _ _ _ _
             Hp Henc Hdec).
  cbn [res env_of trace].
  match goal with
  | |- context [report_stage evaluate ?a p e3] =>
      assert (Hr : report_stage evaluate a p e3
                   = Out (Raise x) e4 [RunEvaluate a])
  end.
  { unfold report_stage. rewrite bind_emit.
    unfold mbind, M_bind, bind, extern. by rewrite Hev. }
  rewrite Hr. cbn [res env_of trace].
  destruct (io_is_no_step t2) as (_ & _ & Hv2 & Hw2).
  destruct (io_is_no_step t3) as (_ & _ & Hv3 & Hw3).
  read_steps. by rewrite Hv2, Hw2, Hv3, Hw3.
Qed.

Lemma run_stops_at_failed_evaluation_witness :
  let o := @Base_run (Scenario.stub true true) failing_evaluate
             (Scenario.plugin GPCC) ["cube.ply"] ["/"; "data"; "src"]
             ["/"; "data"; "nor"] ["/"; "exp"; "r1"] (VInt 0) VNone
             Scenario.world in
  res o = Raise KeyError /\ log_writes (trace o) = [] /\
  fs (env_of o) !! ["/"; "exp"; "r1"; "bin"; "cube.bin"] = Some (File "bits").
Proof.
  cbn zeta.
  edestruct (@run_stops_at_failed_evaluation (Scenario.stub true true)
               failing_evaluate (Scenario.plugin GPCC) ["cube.ply"]
               ["/"; "data"; "src"] ["/"; "data"; "nor"] ["/"; "exp"; "r1"]
               (VInt 0) VNone Scenario.world)
    as (Hres & Henv & _ & Hlog).
  - vm_compute. reflexivity.
  - vm_compute. reflexivity.
  - vm_compute. reflexivity.
  - intros args. reflexivity.
  - split; [exact Hres|]. split; [exact Hlog|].
    rewrite Henv. vm_compute. reflexivity.
Defined.

(** ** [run_dataset], further *)

Lemma jobs_of_app {I E} (t1 t2 : list (pool_event I E)) :
  jobs_of (t1 ++ t2) = jobs_of t1 ++ jobs_of t2.
Proof. apply omap_app. Qed.

Lemma unrunnable_bind {A} (m : M (pool_event Path.t run_event) A) f e :
  idle (trace (m e)) ->
  (forall a e1, unrunnable (f a e1)) ->
  unrunnable ((m ≫= f) e).
Proof.
  intros [Ht Hj] Hf. unfold mbind, M_bind, bind.
  destruct (m e) as [[a|x] e1 t1]; cbn [res env_of trace] in *.
  - destruct (Hf a e1) as (Q1 & Q2 & Q3). unfold unrunnable.
    cbn [res trace]. rewrite tasks_of_app, jobs_of_app, Ht, Hj. by cbn.
  - unfold unrunnable. cbn [res trace]. rewrite Ht, Hj. by repeat split.
Qed.

Lemma unrunnable_raise x e t :
  idle t -> unrunnable (Out (Raise x) e t).
Proof.
  intros [Ht Hj]. unfold unrunnable. cbn [res trace]. rewrite Ht, Hj.
  by repeat split.
Qed.

Section FailingJobs.

Context {I E : Type}.
Variable func : I -> M E unit.
Variable err : exn.
Hypothesis func_fails : forall x e, func x e = Out (Raise err) e [].

Lemma drain_failing_jobs n : forall items e,
  jobs_of (trace (drain func n items e)) = [].
Proof.
  induction n as [|n IH]; intros [|x rest] e; try done.
  rewrite drain_step. cbn zeta. rewrite func_fails. cbn [trace env_of List.map].
  cbn [app]. change (jobs_of (PoolTask x :: ?t)) with (jobs_of t). apply IH.
Qed.

Lemma imap_failing_jobs slack items e :
  let o := imap_unordered func slack items e in
  jobs_of (trace o) = [] /\
  (res o = Ok tt -> tasks_of (trace o) = []) /\
  (tasks_of (trace o) <> [] -> res o = Raise err).
Proof.
  cbn zeta. destruct items as [|x rest]; [by repeat split|].
  rewrite imap_step. cbn zeta. rewrite func_fails.
  cbn [res env_of trace List.map app]. split; [|by split].
  change (jobs_of (PoolTask x :: ?t)) with (jobs_of t).
  by rewrite jobs_of_app, drain_failing_jobs.
Qed.

End FailingJobs.

Lemma parallel_unrunnable getAvailable (sched : schedule Path.t)
    (func : Path.t -> M run_event unit) filelist use_gpu e :
  (forall x e', func x e' = Out (Raise TypeError) e' []) ->
  unrunnable (parallel getAvailable sched func filelist use_gpu e).
Proof.
  intros Hf.
  destruct (parallel_shape getAvailable sched func filelist use_gpu e)
    as [->|[n Ho]]; cbn zeta in *.
  - apply unrunnable_raise. by split.
  - rewrite Ho.
    destruct (imap_failing_jobs func TypeError Hf (overrun sched)
                (completion sched filelist) e) as (Hj & Hok & Hraise).
    cbn zeta in *. unfold unrunnable. cbn [res trace].
    change (jobs_of (PoolSpawn n :: ?t)) with (jobs_of t).
    change (tasks_of (PoolSpawn n :: ?t)) with (tasks_of t).
    by repeat split.
Qed.

Lemma getattr_run_PCGCv1 self :
  ob_class self = PCGCv1 -> plain self ->
  getattr self "run" = Ok (ClassAttr PCGCv1 "run").
Proof.
  intros Hc Hp. unfold getattr, lookup_attr. rewrite Hc. cbn.
  rewrite (plain_absent self "run" Hp); [done|]. by apply not_instance_attr.
Qed.

(** X22: [run_dataset] cannot run a [PCGCv1] plugin.  The job it binds
    is the overriding [run], whose parameter [scale] the partial
    application leaves out: every job raises [TypeError] before doing
    anything.  So for a plain [PCGCv1] instance, whatever the
    configuration, the files and the pool, no job produces an event,
    [run_dataset] returns only when no task was started, and raises
    [TypeError] as soon as one was. *)
Theorem run_dataset_PCGCv1 `{codec : Codec}
    (evaluate : eval_args -> Env -> result string * Env)
    (load_cfg : Path.t -> Env -> result value * Env)
    (getAvailable : gpu_policy -> list nat) (module_file : Path.t)
    (sched : schedule Path.t) (self : object) (ds_name : string)
    (exp_dir : Path.t) (ds_cfg_file : string) (e : Env) :
  ob_class self = PCGCv1 -> plain self ->
  let o := run_dataset evaluate load_cfg getAvailable module_file sched self
             ds_name exp_dir ds_cfg_file e in
  jobs_of (trace o) = [] /\
  (res o = Ok tt -> tasks_of (trace o) = []) /\
  (tasks_of (trace o) <> [] -> res o = Raise TypeError).
Proof.
  intros Hc Hp. cbn zeta. change (unrunnable
    (run_dataset evaluate load_cfg getAvailable module_file sched self
       ds_name exp_dir ds_cfg_file e)).
  unfold run_dataset. rewrite (getattr_run_PCGCv1 self Hc Hp).
  repeat first
    [ rewrite bind_lift_ok; cbn iota; rewrite bind_ret
    | apply unrunnable_bind;
      [first [ by split
             | unfold extern; destruct (load_cfg _ _); by split ]
      | intros ? ?] ].
  apply parallel_unrunnable. intros x e'. reflexivity.
Qed.

Lemma run_dataset_PCGCv1_witness :
  res (@run_dataset (Scenario.stub true true) Scenario.evaluate
         Scenario.load_cfg Scenario.no_gpu Scenario.module_file
         Scenario.in_order
         (assign_rate (Scenario.plugin PCGCv1) "r1" Scenario.world)
         "demo" (Path.of_string "/exp") "cfgs/datasets.yml" Scenario.world)
  = Raise TypeError.
Proof.
  apply (@run_dataset_PCGCv1 (Scenario.stub true true) Scenario.evaluate
           Scenario.load_cfg Scenario.no_gpu Scenario.module_file
           Scenario.in_order
           (assign_rate (Scenario.plugin PCGCv1) "r1" Scenario.world)
           "demo" (Path.of_string "/exp") "cfgs/datasets.yml" Scenario.world).
  - reflexivity.
  - apply plain_setattr; [apply plain_fresh|]. set_solver.
  - vm_compute. discriminate.
Defined.

(** X23: a dataset name the configuration does not hold stops
    [run_dataset] after its first log line and before any pool: with
    the rate set and the configuration loaded, it raises [KeyError],
    having logged the start line with the experiment root joined with
    the rate, created no pool and started no task. *)
Theorem run_dataset_unknown_dataset `{codec : Codec}
    (evaluate : eval_args -> Env -> result string * Env)
    (load_cfg : Path.t -> Env -> result value * Env)
    (getAvailable : gpu_policy -> list nat) (module_file : Path.t)
    (sched : schedule Path.t) (self : object) (ds_name rate : string)
    (exp_dir : Path.t) (ds_cfg_file : string) (e e1 : Env)
    (datasets : list (string * value)) :
  get_data self "_rate" = Ok (VStr rate) ->
  (forall path, load_cfg path e = (Ok (VDict datasets), e1)) ->
  assoc ds_name datasets = None ->
  run_dataset evaluate load_cfg getAvailable module_file sched self
    ds_name exp_dir ds_cfg_file e
  = Out (Raise KeyError) e1
      [PoolLog INFO
         ("Start to run experiments on " +:+ ds_name +:+ " dataset with "
          +:+ cls_name (ob_class self) +:+ " in "
          +:+ Path.to_string (Path.joinpath exp_dir (Path.of_string rate)))].
Proof.
  intros Hrate Hload Hds. unfold run_dataset.
  rewrite Hrate, bind_lift_ok. cbn [as_str]. rewrite bind_lift_ok.
  assert (Hsub : subscript (VDict datasets) ds_name = Raise KeyError)
    by (unfold subscript; by rewrite Hds).
  eapply bind_step; [reflexivity| |reflexivity].
  eapply bind_step; [reflexivity| |reflexivity].
  eapply bind_step; [unfold extern; by rewrite Hload| |reflexivity].
  by rewrite Hsub, bind_lift_raise.
Qed.

Lemma run_dataset_unknown_dataset_witness :
  res (@run_dataset (Scenario.stub true true) Scenario.evaluate
         no_datasets Scenario.no_gpu Scenario.module_file Scenario.in_order
         (assign_rate (Scenario.plugin GPCC) "r1" Scenario.world)
         "demo" (Path.of_string "/exp") "cfgs/datasets.yml" Scenario.world)
  = Raise KeyError.
Proof.
  rewrite (@run_dataset_unknown_dataset (Scenario.stub true true)
             Scenario.evaluate no_datasets Scenario.no_gpu
             Scenario.module_file Scenario.in_order
             (assign_rate (Scenario.plugin GPCC) "r1" Scenario.world)
             "demo" "r1" (Path.of_string "/exp") "cfgs/datasets.yml"
             Scenario.world Scenario.world [] eq_refl
             (fun _ => eq_refl) eq_refl).
  reflexivity.
Defined.

(** ** [GPCC] *)

Lemma execute_cmd_zero sp_run cmd shell wd e r e' :
  sp_run cmd shell wd e = (Ok r, e') -> returncode r = 0%Z ->
  execute_cmd sp_run cmd shell wd e = Out (Ok true) e' [IoSpawn cmd].
Proof.
  intros H Hrc.
  unfold execute_cmd, mbind, M_bind, bind, emit, extern, try_else.
  cbn [res env_of trace]. rewrite H. cbn [res env_of trace].
  rewrite Hrc. reflexivity.
Qed.

Lemma execute_cmd_nonzero sp_run cmd shell wd e r e' :
  sp_run cmd shell wd e = (Ok r, e') -> returncode r <> 0%Z ->
  Utf8.valid (stdout r) = true -> Utf8.valid (stderr r) = true ->
  execute_cmd sp_run cmd shell wd e
  = Out (Ok false) e'
      [ IoSpawn cmd; failure_log cmd;
        IoPrint (nl +:+ " " +:+ stdout r); IoPrint (nl +:+ " " +:+ stderr r) ].
Proof.
  intros H Hrc Hso Hse.
  unfold execute_cmd, mbind, M_bind, bind, emit, extern, try_else.
  cbn [res env_of trace]. rewrite H. cbn [res env_of trace].
  apply Z.eqb_neq in Hrc. rewrite Hrc. cbn.
  unfold Utf8.decode. rewrite Hso. cbn. by rewrite Hse.
Qed.

(** X24: [GPCC.encode] runs the configured encoder in the configured
    root directory, with the two paths, the quantization scale of the
    active rate and the fixed options, and with [--attribute=color]
    exactly when [_color == 1].  It returns when the encoder exits with
    code zero and raises [AssertionError] when it exits with another
    code, after [execute_cmd] has logged and printed the failure; the
    environment is the one the encoder left. *)
Theorem GPCC_encode_verdict
    (sp_run : list string -> bool -> option string -> Env ->
              result completed * Env)
    (self : object) (in_pcfile bin_file : string) (e e' : Env)
    (cfg scale color : value) (encoder rootdir : string) (r : completed) :
  get_data self "_algs_cfg" = Ok cfg ->
  subscript cfg "encoder" = Ok (VStr encoder) ->
  rate_param self "positionQuantizationScale" = Ok scale ->
  get_data self "_color" = Ok color ->
  subscript cfg "rootdir" = Ok (VStr rootdir) ->
  let argv := encode_argv encoder in_pcfile bin_file scale color in
  sp_run argv false (Some rootdir) e = (Ok r, e') ->
  let o := GPCC_encode sp_run self in_pcfile bin_file e in
  (returncode r = 0%Z -> o = Out (Ok tt) e' [IoSpawn argv]) /\
  (returncode r <> 0%Z ->
   Utf8.valid (stdout r) = true -> Utf8.valid (stderr r) = true ->
   o = Out (Raise AssertionError) e'
         [ IoSpawn argv; failure_log argv;
           IoPrint (nl +:+ " " +:+ stdout r);
           IoPrint (nl +:+ " " +:+ stderr r) ]).
Proof.
  intros Hcfg Henc Hscale Hcolor Hroot argv Hrun o. subst o.
  assert (Hpre :
    GPCC_encode sp_run self in_pcfile bin_file e
    = (execute_cmd sp_run argv false (Some rootdir) ≫= py_assert) e).
  { unfold GPCC_encode.
    rewrite Hcfg, bind_lift_ok, Henc, bind_lift_ok, Hscale, bind_lift_ok.
    rewrite Hcolor, bind_lift_ok, Hroot, bind_lift_ok.
    cbn [as_str]. rewrite !bind_lift_ok.
    subst argv. unfold encode_argv. by destruct (eq_one color). }
  rewrite Hpre. split.
  - intros Hrc. eapply bind_step;
      [by eapply execute_cmd_zero|reflexivity|reflexivity].
  - intros Hrc Hso Hse. eapply bind_step;
      [by eapply execute_cmd_nonzero|reflexivity|].
    by rewrite app_nil_r.
Qed.

Lemma GPCC_encode_verdict_witness :
  GPCC_encode Scenario.sp_run (setattr (gpcc_plugin "false" "true") "_color"
                                 (VBool true))
    "/data/src/cube.ply" "/exp/r1/bin/cube.bin" Scenario.world
  = Out (Raise AssertionError) Scenario.world
      (let argv := [ "false"; "--uncompressedDataPath=/data/src/cube.ply";
                     "--compressedStreamPath=/exp/r1/bin/cube.bin";
                     "--positionQuantizationScale=0.5";
                     "--mergeDuplicatedPoints=1"; "--mode=0";
                     "--attribute=color" ] in
       [ IoSpawn argv; failure_log argv;
         IoPrint (nl +:+ " "); IoPrint (nl +:+ " ") ]).
Proof.
  refine (proj2 (GPCC_encode_verdict Scenario.sp_run
                   (setattr (gpcc_plugin "false" "true") "_color" (VBool true))
                   "/data/src/cube.ply" "/exp/r1/bin/cube.bin"
                   Scenario.world Scenario.world _ (VFloat "0.5") (VBool true)
                   "false" "/opt/gpcc" (Completed 1 "" "")
                   eq_refl eq_refl eq_refl eq_refl eq_refl eq_refl) _ _ _);
    [discriminate | reflexivity | reflexivity].
Defined.

(** X25: [GPCC.encode] needs the rate tag.  On a plugin whose rate was
    never set, with the encoder configured, it raises the
    [AttributeError] of the getter before any command is started: no
    event, the environment untouched. *)
Theorem GPCC_encode_needs_rate
    (sp_run : list string -> bool -> option string -> Env ->
              result completed * Env)
    (self : object) (in_pcfile bin_file : string) (e : Env)
    (cfg encoder : value) (x : exn) :
  get_data self "_algs_cfg" = Ok cfg ->
  subscript cfg "encoder" = Ok encoder ->
  rate_get self = Raise x ->
  GPCC_encode sp_run self in_pcfile bin_file e = Out (Raise x) e [].
Proof.
  intros Hcfg Henc Hrate. unfold GPCC_encode.
  rewrite Hcfg, bind_lift_ok, Henc, bind_lift_ok.
  unfold rate_param. by rewrite Hcfg, Hrate, bind_lift_raise.
Qed.

Lemma GPCC_encode_needs_rate_witness :
  GPCC_encode Scenario.sp_run (Scenario.plugin GPCC)
    "/data/src/cube.ply" "/exp/r1/bin/cube.bin" Scenario.world
  = Out (Raise AttributeError) Scenario.world [].
Proof.
  apply (GPCC_encode_needs_rate Scenario.sp_run (Scenario.plugin GPCC)
           "/data/src/cube.ply" "/exp/r1/bin/cube.bin" Scenario.world
           Scenario.algs_cfg (VStr "tmc3") AttributeError
           eq_refl eq_refl);
    apply rate_get_fresh.
Defined.

Lemma get_data_setattr_other self k v attr :
  k <> attr ->
  get_data (setattr self k v) attr = get_data self attr.
Proof.
  intros Hne. unfold get_data, getattr, lookup_attr, setattr.
  cbn [ob_class ob_dict]. by rewrite lookup_insert_ne.
Qed.

(** X26: [GPCC.decode] reads the configuration and nothing else of the
    plugin: the rate tag, the colour flag and every other instance
    attribute make no difference to what it does, so that it runs on a
    plugin without a rate as it does on one with. *)
Theorem GPCC_decode_ignores_attributes
    (sp_run : list string -> bool -> option string -> Env ->
              result completed * Env)
    (self : object) (k : string) (v : value)
    (bin_file out_pcfile : string) (e : Env) :
  k <> "_algs_cfg" ->
  GPCC_decode sp_run (setattr self k v) bin_file out_pcfile e
  = GPCC_decode sp_run self bin_file out_pcfile e.
Proof.
  intros Hk. unfold GPCC_decode. by rewrite get_data_setattr_other.
Qed.

Lemma GPCC_decode_ignores_attributes_witness :
  GPCC_decode Scenario.sp_run
    (setattr (Scenario.plugin GPCC) "_rate" (VStr "r1")) "a.bin" "a.ply"
    Scenario.world
  = GPCC_decode Scenario.sp_run (Scenario.plugin GPCC) "a.bin" "a.ply"
      Scenario.world.
Proof.
  apply (GPCC_decode_ignores_attributes Scenario.sp_run (Scenario.plugin GPCC)
           "_rate" (VStr "r1") "a.bin" "a.ply" Scenario.world).
  discriminate.
Defined.

(** ** [PCGCv1] *)

Lemma rate_param_setattr_other self k v key :
  k <> "_algs_cfg" -> k <> "_rate" ->
  rate_param (setattr self k v) key = rate_param self key.
Proof.
  intros H1 H2. unfold rate_param, rate_get.
  by rewrite !get_data_setattr_other.
Qed.

Lemma make_cmd_setattr_other verb self k v src dst :
  k <> "_algs_cfg" -> k <> "_rate" ->
  make_cmd verb (setattr self k v) src dst = make_cmd verb self src dst.
Proof.
  intros H1 H2. unfold make_cmd.
  by rewrite get_data_setattr_other, !rate_param_setattr_other.
Qed.

Lemma make_cmd_inv verb self src dst cmd :
  make_cmd verb self src dst = Ok cmd ->
  exists cfg python script ckpt scale rho,
    get_data self "_algs_cfg" = Ok cfg /\
    subscript cfg "python" = Ok python /\
    subscript cfg "test_script" = Ok script /\
    rate_param self "ckpt_dir" = Ok ckpt /\
    rate_param self "scale" = Ok scale /\
    rate_param self "rho" = Ok rho /\
    cmd = pcgc_cmd python script verb src dst ckpt scale rho.
Proof.
  unfold make_cmd. intros H.
  destruct (get_data self "_algs_cfg") as [cfg|] eqn:Hcfg; [|done].
  destruct (subscript cfg "python") as [python|] eqn:Hpy; [|done].
  destruct (subscript cfg "test_script") as [script|] eqn:Hsc; [|done].
  destruct (rate_param self "ckpt_dir") as [ckpt|] eqn:Hck; [|done].
  destruct (rate_param self "scale") as [scale|] eqn:Hs; [|done].
  destruct (rate_param self "rho") as [rho|] eqn:Hr; [|done].
  exists cfg, python, script, ckpt, scale, rho.
  repeat split; try done. by inversion H.
Qed.

(** X27: the commands of [PCGCv1] come from the configuration alone.
    Whenever the encode command of a run can be built, it is the
    interpreter and the script of the configuration, [compress], the
    input and the artifact, and the three options of the active rate;
    the decode command can then be built too and differs in the verb
    and the two paths only.  The option [--scale] carries the scale
    configured for the rate: the scale and the colour flag that [run]
    received for the item and stored on the plugin are not used. *)
Theorem PCGCv1_commands (self : object) (item_scale color : value)
    (i b o : Path.t) (enc : list cmd_arg) :
  let self' := setattr (setattr self "_pc_scale" item_scale) "_color" color in
  make_encode_cmd self' i b = Ok enc ->
  exists cfg python script ckpt scale rho,
    get_data self "_algs_cfg" = Ok cfg /\
    subscript cfg "python" = Ok python /\
    subscript cfg "test_script" = Ok script /\
    rate_param self "ckpt_dir" = Ok ckpt /\
    rate_param self "scale" = Ok scale /\
    rate_param self "rho" = Ok rho /\
    enc = pcgc_cmd python script "compress" i b ckpt scale rho /\
    make_decode_cmd self' b o
    = Ok (pcgc_cmd python script "decompress" b o ckpt scale rho).
Proof.
  intros self' H. unfold self', make_encode_cmd, make_decode_cmd in *.
  rewrite !make_cmd_setattr_other in H by done.
  rewrite !make_cmd_setattr_other by done.
  destruct (make_cmd_inv _ _ _ _ _ H)
    as (cfg & python & script & ckpt & scale & rho
        & Hcfg & Hpy & Hsc & Hck & Hs & Hr & ->).
  exists cfg, python, script, ckpt, scale, rho. repeat split; try done.
  unfold make_cmd. by rewrite Hcfg, Hpy, Hsc, Hck, Hs, Hr.
Qed.

Lemma PCGCv1_commands_witness :
  exists cfg python script ckpt scale rho,
    get_data pcgc_plugin "_algs_cfg" = Ok cfg /\
    subscript cfg "python" = Ok python /\
    subscript cfg "test_script" = Ok script /\
    rate_param pcgc_plugin "ckpt_dir" = Ok ckpt /\
    rate_param pcgc_plugin "scale" = Ok scale /\
    rate_param pcgc_plugin "rho" = Ok rho /\
    pcgc_cmd (VStr "python3") (VStr "test.py") "compress"
      (in_pcfile fixed_paths) (bin_file fixed_paths)
      (VStr "ckpts/r1") (VInt 1) (VFloat "1.0")
    = pcgc_cmd python script "compress"
        (in_pcfile fixed_paths) (bin_file fixed_paths) ckpt scale rho /\
    make_decode_cmd
      (setattr (setattr pcgc_plugin "_pc_scale" (VInt 1024)) "_color"
         (VBool false))
      (bin_file fixed_paths) (out_pcfile fixed_paths)
    = Ok (pcgc_cmd python script "decompress"
            (bin_file fixed_paths) (out_pcfile fixed_paths) ckpt scale rho).
Proof.
  apply (PCGCv1_commands pcgc_plugin (VInt 1024) (VBool false)
           (in_pcfile fixed_paths) (bin_file fixed_paths)
           (out_pcfile fixed_paths)).
  reflexivity.
Defined.

(** X28: the early returns of the override.  Where the two names it
    calls are bound and path resolution and the two commands are
    available, [PCGCv1.run] returns without an evaluation and without a
    log as soon as a command fails: after a failed encode command it
    has done what path resolution and that command did and nothing
    else, the decode command not tried; after a failed decode command,
    what path resolution and the two commands did. *)
Theorem PCGCv1_run_early_return
    (evaluate : eval_args -> Env -> result string * Env)
    (call_set_filepath :
       attribute -> object -> Path.t -> Path.t -> Path.t -> Path.t ->
       M run_event job_paths)
    (call_run_command :
       attribute -> object -> list cmd_arg -> Q -> value ->
       M run_event (bool * Q))
    (self : object) (pcfile src_dir nor_dir exp_dir : Path.t)
    (scale color resolution gpu_queue : value)
    (e e1 e2 : Env) (f g : attribute) (p : job_paths)
    (t1 t2 : list run_event) (enc_cmd dec_cmd : list cmd_arg)
    (ok : bool) (enc_time : Q) :
  let self' := setattr (setattr self "_pc_scale" scale) "_color" color in
  getattr self' "_set_filepath" = Ok f ->
  call_set_filepath f self' pcfile src_dir nor_dir exp_dir e
  = Out (Ok p) e1 t1 ->
  make_encode_cmd self' (in_pcfile p) (bin_file p) = Ok enc_cmd ->
  make_decode_cmd self' (bin_file p) (out_pcfile p) = Ok dec_cmd ->
  getattr self' "_run_command" = Ok g ->
  call_run_command g self' enc_cmd (-1)%Q gpu_queue e1
  = Out (Ok (ok, enc_time)) e2 t2 ->
  let o := PCGCv1_run evaluate call_set_filepath call_run_command self
             pcfile src_dir nor_dir exp_dir scale color resolution
             gpu_queue e in
  (ok = false -> o = Out (Ok tt) e2 (t1 ++ t2)) /\
  (ok = true ->
   forall dec_time e3 t3,
     call_run_command g self' dec_cmd (-1)%Q gpu_queue e2
     = Out (Ok (false, dec_time)) e3 t3 ->
     o = Out (Ok tt) e3 (t1 ++ t2 ++ t3)).
Proof.
  intros self' Hf Hp Henc Hdec Hg Hrun o. subst o. split.
  - intros ->. by eapply PCGCv1_run_skips_after_failed_encode.
  - intros -> dec_time e3 t3 Hrun2. unfold PCGCv1_run. fold self'.
    rewrite Hf, bind_lift_ok.
    eapply bind_step; [exact Hp| |reflexivity].
    rewrite Henc, bind_lift_ok, Hdec, bind_lift_ok, Hg, bind_lift_ok.
    eapply bind_step; [exact Hrun| |reflexivity].
    cbv beta iota delta [negb]. rewrite bind_lift_ok.
    eapply bind_step; [exact Hrun2| |by rewrite app_nil_r].
    reflexivity.
Qed.

Lemma PCGCv1_run_early_return_witness :
  PCGCv1_run Scenario.evaluate patched_set_filepath
    (patched_run_command "decompress") patched_plugin
    ["cube.ply"] ["/"; "data"; "src"] ["/"; "data"; "nor"] ["/"; "exp"; "r1"]
    (VInt 1024) (VBool false) VNone VNone Scenario.world
  = Out (Ok tt) Scenario.world [].
Proof.
  refine (proj2 (PCGCv1_run_early_return Scenario.evaluate
            patched_set_filepath (patched_run_command "decompress")
            patched_plugin
            ["cube.ply"] ["/"; "data"; "src"] ["/"; "data"; "nor"]
            ["/"; "exp"; "r1"] (VInt 1024) (VBool false) VNone VNone
            Scenario.world Scenario.world Scenario.world
            (InstAttr (VStr "set_filepath")) (InstAttr (VStr "run_command"))
            fixed_paths [] []
            (pcgc_cmd (VStr "python3") (VStr "test.py") "compress"
               (in_pcfile fixed_paths) (bin_file fixed_paths)
               (VStr "ckpts/r1") (VInt 1) (VFloat "1.0"))
            (pcgc_cmd (VStr "python3") (VStr "test.py") "decompress"
               (bin_file fixed_paths) (out_pcfile fixed_paths)
               (VStr "ckpts/r1") (VInt 1) (VFloat "1.0"))
            true (-1)%Q
            eq_refl eq_refl eq_refl eq_refl eq_refl eq_refl)
          eq_refl (-1)%Q Scenario.world [] eq_refl).
Defined.
